(** * Stefone portfolio engine: [assets/app.js]

    A shallow embedding of the data pipeline of [assets/app.js]
    (site root, normalisation, loading, sorting, filtering, the featured
    selection and thumbnail resolution) and the properties proved about it.

    Conventions of the embedding.
    - A JavaScript string is a [string]: a sequence of code units, here
      restricted to the range U+0000..U+00FF (one [ascii] per code unit,
      read as Latin-1).  [trim] and [toLowerCase] follow ECMAScript on that
      range.  [encodeURIComponent], which throws on a lone surrogate, is
      modelled on all 16-bit code units as well.
    - The parts of the host that ECMAScript leaves to the implementation
      (number formatting, the source text of a native function and
      [String.prototype.localeCompare]) are the fields of the class
      [Engine]; the definitions that depend on them are parametric in it.
    - A function that can throw returns a [result]; a promise is modelled
      by the [result] it settles with.
    - A view is modelled by the list of records whose cards it appends,
      in order; the card of a record is the tree that [Dom.projectCard]
      builds with [Dom.el]. *)

From Stdlib Require Import String Ascii List ZArith Bool Lia Permutation Sorted.
From Stdlib Require Import DecimalString.
Import ListNotations.
Local Open Scope list_scope.
Local Open Scope string_scope.

(** ** Strings *)

Module Str.

(** The truthiness of a string: [Boolean(s)], [!s] negated. *)
Definition nonEmpty (s : string) : bool :=
  match s with
  | EmptyString => false
  | String _ _ => true
  end.

(** ECMAScript [WhiteSpace] and [LineTerminator] code points below U+0100:
    TAB, LF, VT, FF, CR, SP and NBSP. *)
Definition isWhiteSpace (c : ascii) : bool :=
  let n := nat_of_ascii c in
  ((9 <=? n) && (n <=? 13) || (n =? 32) || (n =? 160))%nat.

Fixpoint trimStart (s : string) : string :=
  match s with
  | EmptyString => EmptyString
  | String c r => if isWhiteSpace c then trimStart r else s
  end.

Fixpoint trimEnd (s : string) : string :=
  match s with
  | EmptyString => EmptyString
  | String c r =>
      let r' := trimEnd r in
      if isWhiteSpace c && negb (nonEmpty r') then EmptyString else String c r'
  end.

(** [String.prototype.trim] *)
Definition trim (s : string) : string := trimEnd (trimStart s).

(** Lower-case mapping of one code unit below U+0100: A..Z and
    U+00C0..U+00DE except the multiplication sign U+00D7. *)
Definition lowerChar (c : ascii) : ascii :=
  let n := nat_of_ascii c in
  if ((65 <=? n) && (n <=? 90)
      || (192 <=? n) && (n <=? 222) && negb (n =? 215))%nat
  then ascii_of_nat (n + 32) else c.

(** [String.prototype.toLowerCase] *)
Fixpoint toLowerCase (s : string) : string :=
  match s with
  | EmptyString => EmptyString
  | String c r => String (lowerChar c) (toLowerCase r)
  end.

(** [s.startsWith(p)] *)
Definition startsWith (s p : string) : bool := String.prefix p s.

(** [s.endsWith(p)] *)
Fixpoint endsWith (s p : string) : bool :=
  String.eqb s p ||
  match s with
  | EmptyString => false
  | String _ r => endsWith r p
  end.

(** [hay.includes(needle)] *)
Fixpoint includes (hay needle : string) : bool :=
  String.prefix needle hay ||
  match hay with
  | EmptyString => false
  | String _ r => includes r needle
  end.

(** [parts.join(sep)] on an array of strings *)
Fixpoint join (sep : string) (parts : list string) : string :=
  match parts with
  | [] => EmptyString
  | [s] => s
  | s :: rest => s ++ sep ++ join sep rest
  end.

(** [s.replace(/^\//, "")]: one leading solidus removed, if there is one. *)
Definition stripLeadingSlash (s : string) : string :=
  match s with
  | String "/" r => r
  | _ => s
  end.

(** Equality of a code unit with an ASCII letter, ignoring case: what a
    literal letter of a regular expression with the [i] flag matches. *)
Definition eqIgnoreCase (c lower upper : ascii) : bool :=
  Ascii.eqb c lower || Ascii.eqb c upper.

End Str.

(** ** The host engine *)

(** What ECMAScript leaves implementation-defined and the script relies on. *)
Class Engine : Type := {
  (** the values a JSON number parses to *)
  number : Type;
  (** [n === 0] (either zero): the only falsy parsed numbers *)
  numberIsZero : number -> bool;
  (** [String(n)] *)
  numberToString : number -> string;
  (** [String(String.prototype.link)], the source text of a native function *)
  nativeLinkSource : string;
  (** [a.localeCompare(b)], by its sign *)
  localeCompare : string -> string -> Z
}.

(** The requirement ECMAScript puts on [localeCompare]: a consistent
    comparator, i.e. a total preorder read off the sign of the result. *)
Record ConsistentComparator {A : Type} (cmp : A -> A -> Z) : Prop := {
  cmp_antisym : forall a b, Z.sgn (cmp a b) = (- Z.sgn (cmp b a))%Z;
  cmp_trans : forall a b c, (cmp a b <= 0)%Z -> (cmp b c <= 0)%Z -> (cmp a c <= 0)%Z
}.

(** ** Exceptions *)

Inductive exn : Type :=
| Error (message : string)   (* [new Error(message)] *)
| TypeError
| SyntaxError
| URIError.

Inductive result (A : Type) : Type :=
| Ok (a : A)
| Throw (e : exn).
Arguments Ok {A} a.
Arguments Throw {A} e.

Definition bind {A B : Type} (m : result A) (k : A -> result B) : result B :=
  match m with
  | Ok a => k a
  | Throw e => Throw e
  end.

Notation "x <- m ;; k" := (bind m (fun x => k))
  (at level 61, m at next level, right associativity).

(** [xs.map(f)] for a callback that can throw: left to right, stopping at
    the first exception. *)
Fixpoint mapM {A B : Type} (f : A -> result B) (xs : list A) : result (list B) :=
  match xs with
  | [] => Ok []
  | x :: r => y <- f x ;; ys <- mapM f r ;; Ok (y :: ys)
  end.

(** ** Values *)

Section Values.
Context {E : Engine}.
Local Set Warnings "-register-all".

(** A value produced by [JSON.parse].  An object is the list of its own
    properties; the first binding of a key is the property's value. *)
Inductive json : Type :=
| JNull
| JBool (b : bool)
| JNum (n : number)
| JStr (s : string)
| JArr (elems : list json)
| JObj (props : list (string * json)).

(** What a property read [p.k] can yield in this script. *)
Inductive value : Type :=
| VUndefined
| VJson (j : json)
| VNativeLink.   (* the function [String.prototype.link] *)

Fixpoint lookup (k : string) (props : list (string * json)) : option json :=
  match props with
  | [] => None
  | (k', v) :: r => if String.eqb k k' then Some v else lookup k r
  end.

Definition hasOwn (k : string) (props : list (string * json)) : bool :=
  match lookup k props with
  | Some _ => true
  | None => false
  end.

(** [p.k] for the nine property names [normalizeProject] reads.
    - [null] has no properties: the read throws a [TypeError].
    - An object yields its own property; [Object.prototype] has none of
      the nine names.
    - A string is wrapped: [String.prototype] has [link] (the legacy HTML
      method) and none of the other eight names.
    - Booleans, numbers and arrays inherit none of the nine names. *)
Definition getProp (p : json) (k : string) : result value :=
  match p with
  | JNull => Throw TypeError
  | JObj props =>
      Ok (match lookup k props with
          | Some j => VJson j
          | None => VUndefined
          end)
  | JStr _ => Ok (if String.eqb k "link" then VNativeLink else VUndefined)
  | JBool _ | JNum _ | JArr _ => Ok VUndefined
  end.

(** [ToBoolean] *)
Definition truthyJson (j : json) : bool :=
  match j with
  | JNull => false
  | JBool b => b
  | JNum n => negb (numberIsZero n)
  | JStr s => Str.nonEmpty s
  | JArr _ | JObj _ => true
  end.

Definition truthy (v : value) : bool :=
  match v with
  | VUndefined => false
  | VJson j => truthyJson j
  | VNativeLink => true
  end.

(** [String(j)].
    - An array is joined with commas ([Array.prototype.join]); [null]
      elements contribute the empty string.
    - An object without an own [toString] property prints through
      [Object.prototype.toString].  With an own [toString] property (never
      callable in parsed JSON) [OrdinaryToPrimitive] falls through to
      [valueOf], gets no primitive and throws a [TypeError]. *)
Fixpoint toStr (j : json) : result string :=
  match j with
  | JNull => Ok "null"
  | JBool b => Ok (if b then "true" else "false")
  | JNum n => Ok (numberToString n)
  | JStr s => Ok s
  | JArr elems =>
      parts <- (fix elemStrs (l : list json) : result (list string) :=
                  match l with
                  | [] => Ok []
                  | e :: r =>
                      s <- match e with
                           | JNull => Ok EmptyString
                           | _ => toStr e
                           end ;;
                      ss <- elemStrs r ;;
                      Ok (s :: ss)
                  end) elems ;;
      Ok (Str.join "," parts)
  | JObj props =>
      if hasOwn "toString" props then Throw TypeError else Ok "[object Object]"
  end.

Definition ToString (v : value) : result string :=
  match v with
  | VUndefined => Ok "undefined"
  | VJson j => toStr j
  | VNativeLink => Ok nativeLinkSource
  end.

(** [a || b] *)
Definition orElse (a b : value) : value := if truthy a then a else b.

(** ** ProjectRecord and normalizeProject *)

Record ProjectRecord : Type := {
  title : string;
  slug : string;
  description : string;
  thumbnail : string;
  tags : list string;
  category : string;
  featured : bool;
  date : string;
  link : string
}.

(** [String(p.k || dflt).trim()] *)
Definition stringField (p : json) (k dflt : string) : result string :=
  v <- getProp p k ;;
  s <- ToString (orElse v (VJson (JStr dflt))) ;;
  Ok (Str.trim s).

(** [Array.isArray(p.tags) ? p.tags.map(t => String(t).trim()).filter(Boolean) : []] *)
Definition tagsField (p : json) : result (list string) :=
  v <- getProp p "tags" ;;
  match v with
  | VJson (JArr elems) =>
      ts <- mapM (fun t => s <- toStr t ;; Ok (Str.trim s)) elems ;;
      Ok (filter Str.nonEmpty ts)
  | _ => Ok []
  end.

Definition normalizeProject (p : json) : result ProjectRecord :=
  title_ <- stringField p "title" "" ;;
  slug_ <- stringField p "slug" "" ;;
  description_ <- stringField p "description" "" ;;
  thumbnail_ <- stringField p "thumbnail" "" ;;
  tags_ <- tagsField p ;;
  category_ <- (c <- stringField p "category" "Other" ;;
                Ok (if Str.nonEmpty c then c else "Other")) ;;
  featured_ <- (v <- getProp p "featured" ;; Ok (truthy v)) ;;
  date_ <- stringField p "date" "" ;;
  link_ <- (v <- getProp p "link" ;;
            if truthy v then s <- ToString v ;; Ok (Str.trim s) else Ok "") ;;
  Ok {| title := title_; slug := slug_; description := description_;
        thumbnail := thumbnail_; tags := tags_; category := category_;
        featured := featured_; date := date_; link := link_ |}.

(** A normalised record seen as the object it is, so that it can be
    normalised again. *)
Definition asJson (r : ProjectRecord) : json :=
  JObj [ ("title", JStr (title r));
         ("slug", JStr (slug r));
         ("description", JStr (description r));
         ("thumbnail", JStr (thumbnail r));
         ("tags", JArr (map JStr (tags r)));
         ("category", JStr (category r));
         ("featured", JBool (featured r));
         ("date", JStr (date r));
         ("link", JStr (link r)) ].

(** ** loadProjects *)

(** The response [fetch] resolved with: [res.ok], and what [res.json()]
    settles with ([None]: the body is not JSON, a [SyntaxError]). *)
Record Response : Type := {
  ok : bool;
  body : option json
}.

(** [fetch] either rejects (a [TypeError]) or resolves with a response. *)
Inductive fetched : Type :=
| Rejected
| Resolved (res : Response).

Definition keepProject (p : ProjectRecord) : bool :=
  Str.nonEmpty (title p) && Str.nonEmpty (slug p).

Definition loadProjects (f : fetched) : result (list ProjectRecord) :=
  res <- match f with
         | Rejected => Throw TypeError
         | Resolved res => Ok res
         end ;;
  if negb (ok res) then Throw (Error "Couldn't load projects.json") else
  data <- match body res with
          | None => Throw SyntaxError
          | Some j => Ok j
          end ;;
  ps <- mapM normalizeProject (match data with
                               | JArr elems => elems
                               | _ => []
                               end) ;;
  Ok (filter keepProject ps).

End Values.

(** ** The list view: sorting and filtering *)

Section ListView.
Context {E : Engine}.

(** [Array.prototype.sort(cmp)] is a stable sort: for a consistent
    comparator its result is the one sorted arrangement that keeps the
    order of elements comparing equal.  It is computed here by stable
    insertion, an element going in front of the first one it does not
    follow. *)
Fixpoint insertBy {A : Type} (cmp : A -> A -> Z) (x : A) (l : list A) : list A :=
  match l with
  | [] => [x]
  | y :: r => if (cmp x y <=? 0)%Z then x :: y :: r else y :: insertBy cmp x r
  end.

Fixpoint sortBy {A : Type} (cmp : A -> A -> Z) (l : list A) : list A :=
  match l with
  | [] => []
  | x :: r => insertBy cmp x (sortBy cmp r)
  end.

(** [a] may stand before [b] in an array sorted by [cmp]. *)
Definition mayPrecede {A : Type} (cmp : A -> A -> Z) (a b : A) : Prop :=
  (cmp a b <= 0)%Z.

(** The comparator of [renderProjectsList]. *)
Definition compareProjects (a b : ProjectRecord) : Z :=
  if Str.nonEmpty (date a) && Str.nonEmpty (date b)
  then localeCompare (date b) (date a)
  else if Str.nonEmpty (date a) then (-1)%Z
  else if Str.nonEmpty (date b) then 1%Z
  else localeCompare (title a) (title b).

(** [allProjects = [...projects].sort(...)] *)
Definition sortProjects (projects : list ProjectRecord) : list ProjectRecord :=
  sortBy compareProjects projects.

(** [String(s || "").toLowerCase()] on a string *)
Definition normalizeText (s : string) : string :=
  Str.toLowerCase (if Str.nonEmpty s then s else "").

Definition matches (project : ProjectRecord) (query : string) : bool :=
  let q := Str.trim (normalizeText query) in
  if negb (Str.nonEmpty q) then true else
  let hay :=
    Str.join " " (map normalizeText
                      ([title project; description project; category project]
                         ++ tags project)) in
  Str.includes hay q.

(** [tags.includes(tag)] *)
Definition includesTag (ts : list string) (tag : string) : bool :=
  existsb (String.eqb tag) ts.

Definition catOk (cat : string) (p : ProjectRecord) : bool :=
  String.eqb cat "All" || String.eqb (category p) cat.

Definition tagOk (activeTag : string) (p : ProjectRecord) : bool :=
  String.eqb activeTag "All" || includesTag (tags p) activeTag.

(** The [filtered] list of [applyFilters].  [searchInput] and
    [categorySelect] are the values of the two controls, [None] when the
    page has no such element. *)
Definition applyFilters (searchInput categorySelect : option string)
    (activeTag : string) (allProjects : list ProjectRecord) : list ProjectRecord :=
  let q := match searchInput with Some v => v | None => "" end in
  let cat := match categorySelect with Some v => v | None => "All" end in
  filter (fun p => catOk cat p && tagOk activeTag p && matches p q) allProjects.

(** The query criterion as the specification words it: the query is empty
    or a case-insensitive substring of the concatenation of title,
    description, category and all tags. *)
Definition specQueryOk (q : string) (p : ProjectRecord) : bool :=
  negb (Str.nonEmpty q)
  || Str.includes
       (Str.toLowerCase
          (String.concat "" ([title p; description p; category p] ++ tags p)))
       (Str.toLowerCase q).

Definition specVisible (cat tag q : string) (allProjects : list ProjectRecord)
    : list ProjectRecord :=
  filter (fun p => catOk cat p && tagOk tag p && specQueryOk q p) allProjects.

(** ** The featured view *)

(** [l.slice(0, end_)] for an integer [end_]: a negative end counts from
    the end of the array. *)
Definition slice0 {A : Type} (l : list A) (end_ : Z) : list A :=
  let len := Z.of_nat (length l) in
  let final := if (end_ <? 0)%Z then Z.max (len + end_) 0 else Z.min end_ len in
  firstn (Z.to_nat final) l.

(** The records whose cards [renderFeatured] appends, given what
    [loadProjects] settled with; [limit] is [None] when the caller passes
    none.  A rejected load is swallowed by the empty [catch]. *)
Definition renderFeatured (limit : option Z) (loaded : result (list ProjectRecord))
    : list ProjectRecord :=
  let limit := match limit with Some n => n | None => 6%Z end in
  match loaded with
  | Throw _ => []
  | Ok projects =>
      let featured_ := slice0 (filter featured projects) limit in
      match featured_ with
      | _ :: _ => featured_
      | [] => slice0 projects limit
      end
  end.

End ListView.

(** ** Site root and asset paths *)

(** [meta] is the [content] of the page's [site-root] meta element, [None]
    when the page has none. *)
Definition getSiteRoot (meta : option string) : string :=
  let root := match meta with
              | Some content => if Str.nonEmpty content then Str.trim content else "./"
              | None => "./"
              end in
  let root := if negb (Str.nonEmpty root) then "./" else root in
  if negb (Str.endsWith root "/") then root ++ "/" else root.

Definition PLACEHOLDER_THUMB (SITE_ROOT : string) : string :=
  SITE_ROOT ++ "assets/thumbs/placeholder.svg".

(** [/^https?:\/\//i.test(url)] *)
Definition isExternal (url : string) : bool :=
  match url with
  | String h (String t1 (String t2 (String p r))) =>
      Str.eqIgnoreCase h "h" "H" && Str.eqIgnoreCase t1 "t" "T"
      && Str.eqIgnoreCase t2 "t" "T" && Str.eqIgnoreCase p "p" "P"
      && (Str.startsWith r "://"
          || match r with
             | String s r' => Str.eqIgnoreCase s "s" "S" && Str.startsWith r' "://"
             | EmptyString => false
             end)
  | _ => false
  end.

Definition resolveAssetPath (SITE_ROOT path : string) : string :=
  if negb (Str.nonEmpty path) then PLACEHOLDER_THUMB SITE_ROOT
  else if isExternal path || Str.startsWith path "data:" then path
  else SITE_ROOT ++ Str.stripLeadingSlash path.

(** ** A sample engine *)

(** An engine to run the definitions on: integers for numbers, printed in
    decimal, and code-unit order for [localeCompare]. *)
Module Sample.

Definition compareCodeUnits (a b : string) : Z :=
  match String.compare a b with
  | Lt => (-1)%Z
  | Eq => 0%Z
  | Gt => 1%Z
  end.

#[export] Instance engine : Engine := {|
  number := Z;
  numberIsZero := Z.eqb 0;
  numberToString := fun n => NilZero.string_of_int (Z.to_int n);
  nativeLinkSource := "function link() { [native code] }";
  localeCompare := compareCodeUnits
|}.

(** A second engine, whose [localeCompare] ignores letter case as
    collation-based implementations do at their first level: it differs
    from code-unit order on "B" and "a". *)
Definition compareIgnoringCase (a b : string) : Z :=
  compareCodeUnits (Str.toLowerCase a) (Str.toLowerCase b).

Definition caseBlindEngine : Engine := {|
  number := Z;
  numberIsZero := Z.eqb 0;
  numberToString := fun n => NilZero.string_of_int (Z.to_int n);
  nativeLinkSource := "function link() { [native code] }";
  localeCompare := compareIgnoringCase
|}.

Definition project (title_ date_ : string) : ProjectRecord :=
  {| title := title_; slug := title_; description := ""; thumbnail := "";
     tags := []; category := "Other"; featured := false; date := date_;
     link := "" |}.

(** A document of three raw records: a complete one, one whose title is
    blank and one without a title. *)
Definition rawList : json :=
  JArr [JObj [("title", JStr "A"); ("slug", JStr "A")];
        JObj [("title", JStr "  "); ("slug", JStr "b")];
        JObj [("slug", JStr "c")]].

Definition okResponse : fetched := Resolved {| ok := true; body := Some rawList |}.

End Sample.

(** ** Vocabulary of the statements *)

Section Vocabulary.
Context {E : Engine}.

(** [String(j)] returns: no object with an own [toString] property is
    reached through arrays. *)
Fixpoint printable (j : json) : bool :=
  match j with
  | JArr elems => forallb printable elems
  | JObj props => negb (hasOwn "toString" props)
  | JNull | JBool _ | JNum _ | JStr _ => true
  end.

(** Property [k] of the raw record [p] is missing, or a string that is
    empty after trimming. *)
Definition blankProp (p : json) (k : string) : Prop :=
  getProp p k = Ok VUndefined
  \/ exists s, getProp p k = Ok (VJson (JStr s)) /\ Str.trim s = "".

Definition trimmed (s : string) : Prop := Str.trim s = s.

(** The text an array element contributes to [String(array)]. *)
Definition elemStr (e : json) : result string :=
  match e with
  | JNull => Ok ""
  | _ => toStr e
  end.

(** The shape of a record that [normalizeProject] returns. *)
Record Normalized (r : ProjectRecord) : Prop := {
  norm_title : trimmed (title r);
  norm_slug : trimmed (slug r);
  norm_description : trimmed (description r);
  norm_thumbnail : trimmed (thumbnail r);
  norm_tags : Forall (fun t => trimmed t /\ t <> "") (tags r);
  norm_category : trimmed (category r) /\ category r <> "";
  norm_date : trimmed (date r);
  norm_link : trimmed (link r)
}.

(** The properties whose value [normalizeProject] converts to a string. *)
Definition stringKeys : list string :=
  ["title"; "slug"; "description"; "thumbnail"; "category"; "date"; "link"].

(** [needle] occurs in [hay]. *)
Definition occursIn (needle hay : string) : Prop :=
  exists pre post, hay = pre ++ needle ++ post.

End Vocabulary.

(** ** The category and tag controls *)

Section Controls.
Context {E : Engine}.

(** [[...new Set(arr)]]: the distinct strings of [arr], each at its first
    occurrence; [seen] holds what the set already contains. *)
Fixpoint setValues (seen arr : list string) : list string :=
  match arr with
  | [] => []
  | x :: r =>
      if existsb (String.eqb x) seen then setValues seen r
      else x :: setValues (x :: seen) r
  end.

Definition uniqueSorted (arr : list string) : list string :=
  sortBy localeCompare (setValues [] (filter Str.nonEmpty arr)).

(** [uniqueSorted(allProjects.map(p => p.category))] *)
Definition categoriesOf (allProjects : list ProjectRecord) : list string :=
  uniqueSorted (map category allProjects).

(** [uniqueSorted(allProjects.flatMap(p => p.tags || []))] *)
Definition tagsOf (allProjects : list ProjectRecord) : list string :=
  uniqueSorted (flat_map tags allProjects).

End Controls.

(** ** Links *)

(** The characters [encodeURIComponent] leaves as they are: ASCII letters,
    digits and the marks - _ . ! ~ * ' ( ). *)
Definition isUnreserved (c : ascii) : bool :=
  let n := nat_of_ascii c in
  ((65 <=? n) && (n <=? 90) || (97 <=? n) && (n <=? 122)
   || (48 <=? n) && (n <=? 57))%nat
  || existsb (Ascii.eqb c) (list_ascii_of_string "-_.!~*'()").

Definition hexDigit (n : nat) : ascii :=
  nth n (list_ascii_of_string "0123456789ABCDEF") "0"%char.

(** The escape of one octet: a percent sign and two upper-case hex digits. *)
Definition percentEscape (octet : nat) : string :=
  String "%" (String (hexDigit (octet / 16)) (String (hexDigit (octet mod 16)) "")).

(** The encoding of one code unit below U+0100: itself when unreserved,
    otherwise the escapes of its UTF-8 octets (one octet below U+0080,
    two from there on). *)
Definition encodeUnit (c : ascii) : string :=
  let n := nat_of_ascii c in
  if isUnreserved c then String c ""
  else if (n <? 128)%nat then percentEscape n
  else percentEscape (192 + n / 64) ++ percentEscape (128 + n mod 64).

(** [encodeURIComponent(s)] on a string of code units below U+0100.  Such
    a string has no surrogate, so the function returns; on a string with
    a lone surrogate the host throws a [URIError], which
    [encodeURIComponentUnits] below models on all sequences of 16-bit
    code units. *)
Fixpoint encodeURIComponent (s : string) : string :=
  match s with
  | EmptyString => EmptyString
  | String c r => encodeUnit c ++ encodeURIComponent r
  end.

(** [projectHref(p)] for a record of strings of code units below U+0100,
    for which it returns.  For a slug with a lone surrogate and a link
    that is not external the source throws the [URIError] of
    [encodeURIComponent]: see [projectHrefUnits]. *)
Definition projectHref (SITE_ROOT : string) (p : ProjectRecord) : string :=
  if Str.nonEmpty (link p) && isExternal (link p) then link p
  else SITE_ROOT ++ encodeURIComponent (slug p) ++ "/".

(** The inverse of [encodeURIComponent] on what it produces, used to state
    that the encoding loses nothing. *)
Definition hexValue (c : ascii) : nat :=
  let n := nat_of_ascii c in
  if (n <=? 57)%nat then n - 48 else n - 55.

Fixpoint decodeEscapes (s : string) : string :=
  match s with
  | EmptyString => EmptyString
  | String c r =>
      if Ascii.eqb c "%" then
        match r with
        | String h1 (String h2 r2) =>
            let octet := hexValue h1 * 16 + hexValue h2 in
            if (octet <? 128)%nat then String (ascii_of_nat octet) (decodeEscapes r2)
            else
              match r2 with
              | String _ (String h3 (String h4 r4)) =>
                  let octet2 := hexValue h3 * 16 + hexValue h4 in
                  String (ascii_of_nat ((octet - 192) * 64 + (octet2 - 128)))
                         (decodeEscapes r4)
              | _ => EmptyString
              end
        | _ => EmptyString
        end
      else String c (decodeEscapes r)
  end.

(** *** All code units *)

(** [encodeURIComponent] is the one place of the script where the range
    of the code units decides between a result and an exception.  To say
    when the source throws, it is modelled here on every sequence of
    16-bit code units, each an [N] below 65536, following the abstract
    operations [Encode] and [CodePointAt] of ECMAScript. *)

(** The code units of a string of the development. *)
Definition unitsOf (s : string) : list N := map N_of_ascii (list_ascii_of_string s).

Definition isLeadingSurrogate (u : N) : bool := ((0xD800 <=? u) && (u <=? 0xDBFF))%N.

Definition isTrailingSurrogate (u : N) : bool := ((0xDC00 <=? u) && (u <=? 0xDFFF))%N.

(** [String.prototype.isWellFormed]: every leading surrogate is followed
    by a trailing one, and no trailing surrogate stands elsewhere. *)
Fixpoint isWellFormed (units : list N) : bool :=
  match units with
  | [] => true
  | u :: r =>
      if isLeadingSurrogate u then
        match r with
        | v :: r' => isTrailingSurrogate v && isWellFormed r'
        | [] => false
        end
      else negb (isTrailingSurrogate u) && isWellFormed r
  end.

Definition isUnreservedUnit (u : N) : bool :=
  (u <? 128)%N && isUnreserved (ascii_of_N u).

(** The code point of a surrogate pair. *)
Definition pairCodePoint (lead trail : N) : N :=
  ((lead - 0xD800) * 0x400 + (trail - 0xDC00) + 0x10000)%N.

(** The octets of the UTF-8 encoding of a code point. *)
Definition utf8Octets (cp : N) : list N :=
  (if cp <? 0x80 then [cp]
   else if cp <? 0x800 then [0xC0 + cp / 0x40; 0x80 + cp mod 0x40]
   else if cp <? 0x10000
        then [0xE0 + cp / 0x1000; 0x80 + (cp / 0x40) mod 0x40; 0x80 + cp mod 0x40]
   else [0xF0 + cp / 0x40000; 0x80 + (cp / 0x1000) mod 0x40;
         0x80 + (cp / 0x40) mod 0x40; 0x80 + cp mod 0x40])%N.

Definition escapeOctets (octets : list N) : string :=
  String.concat "" (map (fun o => percentEscape (N.to_nat o)) octets).

(** [encodeURIComponent(s)] on the code units of [s].  An unreserved unit
    is copied; otherwise the code point at the unit is taken, a
    [URIError] is thrown if it is a lone surrogate, and the octets of its
    UTF-8 encoding are escaped. *)
Fixpoint encodeURIComponentUnits (units : list N) : result string :=
  match units with
  | [] => Ok ""
  | u :: r =>
      if isUnreservedUnit u then
        rest <- encodeURIComponentUnits r ;; Ok (String (ascii_of_N u) rest)
      else if isLeadingSurrogate u then
        match r with
        | v :: r' =>
            if isTrailingSurrogate v then
              rest <- encodeURIComponentUnits r' ;;
              Ok (escapeOctets (utf8Octets (pairCodePoint u v)) ++ rest)
            else Throw URIError
        | [] => Throw URIError
        end
      else if isTrailingSurrogate u then Throw URIError
      else
        rest <- encodeURIComponentUnits r ;;
        Ok (escapeOctets (utf8Octets u) ++ rest)
  end.

(** [projectHref(p)] for a record with the link [link] and a slug of the
    code units [slug], whatever they are. *)
Definition projectHrefUnits (SITE_ROOT link : string) (slug : list N)
    : result string :=
  if Str.nonEmpty link && isExternal link then Ok link
  else segment <- encodeURIComponentUnits slug ;; Ok (SITE_ROOT ++ segment ++ "/").

(** ** The DOM fragment the script builds *)

(** An element is modelled by what the script can set on it: its tag, its
    content attributes (a later value of a name replaces the earlier one),
    its event listeners in the order they were added, the markup assigned
    to [innerHTML], if any, and the children appended after that.  The
    tag and attribute names the script passes are lower-case names that
    [createElement] and [setAttribute] accept.  Every node the script
    appends is freshly built, so a node has one parent and is modelled by
    its value. *)
Module Dom.

(** The function values of the script that reach the DOM. *)
Inductive listener : Type :=
| UsePlaceholder (src : string).   (* [() => { img.src = PLACEHOLDER_THUMB; }] *)

(** [String(f)] for a function of the script: its source text as the
    engine gives it. *)
Class FunctionText : Type := functionText : listener -> string.

Local Set Warnings "-register-all".

Inductive node : Type :=
| Text (data : string)
| Element (tagName : string)
          (attributes : list (string * string))
          (listeners : list (string * listener))
          (innerHTML : option string)
          (childNodes : list node).

Fixpoint setAttr (name value : string) (attrs : list (string * string))
    : list (string * string) :=
  match attrs with
  | [] => [(name, value)]
  | (n, v) :: r =>
      if String.eqb n name then (n, value) :: r else (n, v) :: setAttr name value r
  end.

Fixpoint getAttr (name : string) (attrs : list (string * string)) : option string :=
  match attrs with
  | [] => None
  | (n, v) :: r => if String.eqb n name then Some v else getAttr name r
  end.

(** [node.getAttribute(name)], [None] for [null] *)
Definition getAttribute (n : node) (name : string) : option string :=
  match n with
  | Text _ => None
  | Element _ attrs _ _ _ => getAttr name attrs
  end.

(** [node.setAttribute(name, value)]; [node.className = value] and
    [img.src = value] set the attributes [class] and [src]. *)
Definition setAttribute (n : node) (name value : string) : node :=
  match n with
  | Text _ => n
  | Element t attrs ls html cs => Element t (setAttr name value attrs) ls html cs
  end.

Definition addEventListener (n : node) (type : string) (f : listener) : node :=
  match n with
  | Text _ => n
  | Element t attrs ls html cs => Element t attrs (ls ++ [(type, f)]) html cs
  end.

(** [node.innerHTML = markup]: the children are replaced by what the
    markup parses to. *)
Definition setInnerHTML (n : node) (markup : string) : node :=
  match n with
  | Text _ => n
  | Element t attrs ls _ _ => Element t attrs ls (Some markup) []
  end.

Definition appendChild (n child : node) : node :=
  match n with
  | Text _ => n
  | Element t attrs ls html cs => Element t attrs ls html (cs ++ [child])
  end.

(** A value of an attribute passed to [el]. *)
Inductive attrValue : Type :=
| AStr (s : string)
| AFun (f : listener).

(** A child passed to [el]: [null] or another falsy value that is not a
    string, a string, or a node. *)
Inductive child : Type :=
| CNull
| CText (s : string)
| CNode (n : node).

(** The [children] argument of [el]: an array, or one child. *)
Inductive children : Type :=
| One (c : child)
| Many (cs : list child).

(** [k.slice(2)] *)
Definition slice2 (k : string) : string :=
  match k with
  | String _ (String _ r) => r
  | _ => EmptyString
  end.

Section El.
Context {FT : FunctionText}.

(** The conversion of an attribute value to the string the DOM stores. *)
Definition valueText (v : attrValue) : string :=
  match v with
  | AStr s => s
  | AFun f => functionText f
  end.

(** One round of the loop over [Object.entries(attrs)]. *)
Definition setEntry (n : node) (entry : string * attrValue) : node :=
  let (k, v) := entry in
  let otherwise :=
    if String.eqb k "html" then setInnerHTML n (valueText v)
    else setAttribute n k (valueText v) in
  if String.eqb k "class" then setAttribute n "class" (valueText v)
  else if Str.startsWith k "on" then
    match v with
    | AFun f => addEventListener n (slice2 k) f
    | AStr _ => otherwise
    end
  else otherwise.

(** [Boolean(ch)] *)
Definition truthyChild (c : child) : bool :=
  match c with
  | CNull => false
  | CText s => Str.nonEmpty s
  | CNode _ => true
  end.

(** The nodes a child adds: none when it is falsy. *)
Definition nodeOf (c : child) : list node :=
  match c with
  | CNull => []
  | CText s => if Str.nonEmpty s then [Text s] else []
  | CNode n => [n]
  end.

Definition appendOne (n : node) (c : child) : node :=
  match c with
  | CText s => appendChild n (Text s)
  | CNode ch => appendChild n ch
  | CNull => n
  end.

Definition el (tag : string) (attrs : list (string * attrValue)) (ch : children)
    : node :=
  let node := Element tag [] [] None [] in
  let node := fold_left setEntry attrs node in
  fold_left appendOne
            (filter truthyChild (match ch with One c => [c] | Many cs => cs end))
            node.

(** [projectCard(p)] under a site root. *)
Definition projectCard (SITE_ROOT : string) (p : ProjectRecord) : node :=
  let href := projectHref SITE_ROOT p in
  let img :=
    el "img" [("src", AStr (resolveAssetPath SITE_ROOT (thumbnail p)));
              ("alt", AStr (title p ++ " thumbnail"));
              ("loading", AStr "lazy")] (Many []) in
  let img := addEventListener img "error" (UsePlaceholder (PLACEHOLDER_THUMB SITE_ROOT)) in
  let card :=
    el "a" [("class", AStr "card project");
            ("href", AStr href);
            ("aria-label", AStr ("View project " ++ title p))]
       (Many
          [CNode (el "div" [("class", AStr "thumb")] (One (CNode img)));
           CNode
             (el "div" [("class", AStr "project-body")]
                 (Many
                    [CNode
                       (el "div" [("class", AStr "project-title")]
                           (Many
                              [CNode (el "strong" [] (One (CText (title p))));
                               CNode (el "span" [("class", AStr "cat")]
                                         (One (CText (category p))))]));
                     CNode (el "p" [("class", AStr "project-desc")]
                               (One (CText (description p))));
                     CNode
                       (el "div" [("class", AStr "tags")]
                           (Many
                              (map (fun t =>
                                      CNode (el "span" [("class", AStr "tag")]
                                                (One (CText t))))
                                   (slice0 (tags p) 6%Z))))]))]) in
  if isExternal href
  then setAttribute (setAttribute card "target" "_blank") "rel" "noreferrer"
  else card.

End El.

(** What a listener does to the element it was added to. *)
Definition call (f : listener) (target : node) : node :=
  match f with
  | UsePlaceholder src => setAttribute target "src" src
  end.

(** The listeners of [target] for events of type [type], called in the
    order they were added. *)
Definition dispatchEvent (target : node) (type : string) : node :=
  match target with
  | Text _ => target
  | Element _ _ ls _ _ =>
      fold_left (fun n entry =>
                   if String.eqb (fst entry) type then call (snd entry) n else n)
                ls target
  end.

(** The element descendants of a node with a given tag or a given value
    of [class], in document order, the node itself included; and the text
    of the text children of an element. *)
Fixpoint elements (keep : node -> bool) (n : node) : list node :=
  match n with
  | Text _ => []
  | Element _ _ _ _ cs =>
      ((if keep n then [n] else [])
         ++ (fix each (l : list node) : list node :=
               match l with
               | [] => []
               | c :: r => elements keep c ++ each r
               end) cs)%list
  end.

Definition hasTag (tag : string) (n : node) : bool :=
  match n with
  | Text _ => false
  | Element t _ _ _ _ => String.eqb t tag
  end.

Definition hasClass (cls : string) (n : node) : bool :=
  match getAttribute n "class" with
  | Some c => String.eqb c cls
  | None => false
  end.

(** The chip of one tag, as [projectCard] builds it. *)
Definition tagChip (t : string) : node :=
  Element "span" [("class", "tag")] [] None (nodeOf (CText t)).

Definition ownText (n : node) : string :=
  match n with
  | Text _ => EmptyString
  | Element _ _ _ _ cs =>
      String.concat "" (flat_map (fun c => match c with
                                           | Text s => [s]
                                           | Element _ _ _ _ _ => []
                                           end) cs)
  end.

End Dom.

(** ** The list view *)

(** [renderProjectsList] as a state machine: the state holds the closure
    variables [allProjects] and [activeTag] and what the script reads from
    and writes to the page; an event is a listener of the script being
    called by the page. *)
Module ListView.

(** [err.message] of the exceptions the host throws. *)
Class HostMessages : Type := hostMessage : exn -> string.

Definition message {HM : HostMessages} (e : exn) : string :=
  match e with
  | Error m => m
  | TypeError | SyntaxError | URIError => hostMessage e
  end.

(** The elements [getElementById] finds.  [searchInput] is the value the
    input holds when the list is loaded, [None] when the page has no such
    element; the other fields say whether the element exists. *)
Record Page : Type := {
  searchInput : option string;
  categorySelect : bool;
  tagsWrap : bool;
  clearBtn : bool;
  countEl : bool
}.

Record State : Type := {
  page : Page;
  allProjects : list ProjectRecord;
  activeTag : string;
  (** [searchInput.value] and [categorySelect.value], where they exist *)
  searchValue : string;
  categoryValue : string;
  (** the values of the options of [categorySelect] *)
  categoryOptions : list string;
  (** [data-tag] and [data-active] of the buttons in [tagsWrap] *)
  tagButtons : list (string * option bool);
  (** the records whose cards are the children of [root] *)
  cards : list ProjectRecord;
  (** the text of [countEl], once written *)
  countText : option string
}.

(** [String(n)] for an array length *)
Definition decimal (n : nat) : string := NilZero.string_of_uint (Nat.to_uint n).

(** [q] and [cat] as [applyFilters] reads them from the page. *)
Definition query (s : State) : option string :=
  match searchInput (page s) with
  | Some _ => Some (searchValue s)
  | None => None
  end.

Definition selectedCategory (s : State) : option string :=
  if categorySelect (page s) then Some (categoryValue s) else None.

Definition filtered (s : State) : list ProjectRecord :=
  applyFilters (query s) (selectedCategory s) (activeTag s) (allProjects s).

(** [applyFilters()] with its effects: the cards of [root] are replaced
    and the count is written.  The source builds each card with
    [projectCard], which throws where [projectHref] does, on a slug with
    a lone surrogate and a link that is not external; the loop then
    stops, with [root] partly filled and the count unwritten.  The
    records of the state are of code units below U+0100: none has such a
    slug ([projectHrefUnits] returns on each), every card is built, and
    the function is total. *)
Definition applyFilters (s : State) : State :=
  {| page := page s; allProjects := allProjects s; activeTag := activeTag s;
     searchValue := searchValue s; categoryValue := categoryValue s;
     categoryOptions := categoryOptions s; tagButtons := tagButtons s;
     cards := filtered s;
     countText :=
       if countEl (page s)
       then Some (decimal (length (filtered s)) ++ " / "
                    ++ decimal (length (allProjects s)))
       else countText s |}.

Definition setActiveTag (tag : string) (s : State) : State :=
  let s' :=
    {| page := page s; allProjects := allProjects s; activeTag := tag;
       searchValue := searchValue s; categoryValue := categoryValue s;
       categoryOptions := categoryOptions s; tagButtons := tagButtons s;
       cards := cards s; countText := countText s |} in
  if negb (tagsWrap (page s)) then s' else
  applyFilters
    {| page := page s; allProjects := allProjects s; activeTag := tag;
       searchValue := searchValue s; categoryValue := categoryValue s;
       categoryOptions := categoryOptions s;
       tagButtons :=
         map (fun b => (fst b, Some (String.eqb (fst b) tag))) (tagButtons s);
       cards := cards s; countText := countText s |}.

Definition setSearchValue (v : string) (s : State) : State :=
  {| page := page s; allProjects := allProjects s; activeTag := activeTag s;
     searchValue := v; categoryValue := categoryValue s;
     categoryOptions := categoryOptions s; tagButtons := tagButtons s;
     cards := cards s; countText := countText s |}.

Definition setCategoryValue (v : string) (s : State) : State :=
  {| page := page s; allProjects := allProjects s; activeTag := activeTag s;
     searchValue := searchValue s; categoryValue := v;
     categoryOptions := categoryOptions s; tagButtons := tagButtons s;
     cards := cards s; countText := countText s |}.

(** What the page can do to the list once it is loaded: the user edits
    the search box, picks an option of the select, clicks a tag button or
    clicks the clear button. *)
Inductive event : Type :=
| Input (value : string)
| Change (value : string)
| TagClick (tag : string)
| Clear.

(** The listener an event calls.  An event on an element the page does
    not have, or for an option or a button that does not exist, cannot
    happen and leaves the state as it is. *)
Definition handle (s : State) (ev : event) : State :=
  match ev with
  | Input v =>
      match searchInput (page s) with
      | Some _ => applyFilters (setSearchValue v s)
      | None => s
      end
  | Change v =>
      if categorySelect (page s) && existsb (String.eqb v) (categoryOptions s)
      then applyFilters (setCategoryValue v s)
      else s
  | TagClick tag =>
      if tagsWrap (page s) && existsb (String.eqb tag) (map fst (tagButtons s))
      then setActiveTag tag s
      else s
  | Clear =>
      if clearBtn (page s) then
        let s := match searchInput (page s) with
                 | Some _ => setSearchValue "" s
                 | None => s
                 end in
        let s := if categorySelect (page s) then setCategoryValue "All" s else s in
        applyFilters (setActiveTag "All" s)
      else s
  end.

(** What every listener leaves true of the list: the cards are the
    filtered list and the count is its length over the total. *)
Definition inSync (s : State) : Prop :=
  cards s = filtered s
  /\ (countEl (page s) = true ->
      countText s
      = Some (decimal (length (cards s)) ++ " / "
                ++ decimal (length (allProjects s)))).

(** What every listener leaves true of the controls: the button of the
    active tag, and no other, is marked active; the active tag is one of
    the buttons, and "All" without buttons; the selected category is one
    of the options. *)
Definition controlsConsistent (s : State) : Prop :=
  (tagsWrap (page s) = true ->
   tagButtons s
   = map (fun t => (t, Some (String.eqb t (activeTag s)))) (map fst (tagButtons s))
   /\ In (activeTag s) (map fst (tagButtons s))
   /\ In "All" (map fst (tagButtons s)))
  /\ (tagsWrap (page s) = false -> activeTag s = "All")
  /\ (categorySelect (page s) = true ->
      In (categoryValue s) (categoryOptions s) /\ In "All" (categoryOptions s)).

Section Mount.
Context {E : Engine} {HM : HostMessages}.

(** The state when the [then] callback returns.  The select, emptied and
    filled again, shows its first option, "All". *)
Definition mounted (pg : Page) (projects : list ProjectRecord) : State :=
  let all := sortProjects projects in
  let s :=
    {| page := pg; allProjects := all; activeTag := "All";
       searchValue := match searchInput pg with Some v => v | None => "" end;
       categoryValue := "All";
       categoryOptions := if categorySelect pg then "All" :: categoriesOf all else [];
       tagButtons :=
         if tagsWrap pg then map (fun t => (t, None)) ("All" :: tagsOf all) else [];
       cards := []; countText := None |} in
  let s := if tagsWrap pg then setActiveTag "All" s else s in
  applyFilters s.

(** The state after the page has sent the events [evs], in order. *)
Definition after (pg : Page) (projects : list ProjectRecord) (evs : list event)
    : State :=
  fold_left handle evs (mounted pg projects).

(** What the list view shows: the list, or the notice, of which the last
    line, the one with the error message, is modelled. *)
Inductive view : Type :=
| Listing (s : State)
| Notice (errorLine : string).

(** [renderProjectsList()] once the load has settled; [root] says whether
    the page has the target element.  Without it nothing is loaded.  The
    [catch] of the source also receives what the [then] callback throws,
    which is the [URIError] of a card that cannot be built; for the
    records of the development every card is built (see [applyFilters]),
    so the notice is shown exactly when the load throws. *)
Definition renderProjectsList (root : bool) (pg : Page) (f : fetched) : option view :=
  if negb root then None else
  Some match loadProjects f with
       | Ok projects => Listing (mounted pg projects)
       | Throw err => Notice ("Error: " ++ message err)
       end.

End Mount.

End ListView.

(** A page with every control, two loaded records, and the state after a
    tag button was clicked and a query typed. *)
Module SampleView.

Definition page : ListView.Page :=
  {| ListView.searchInput := Some ""; ListView.categorySelect := true;
     ListView.tagsWrap := true; ListView.clearBtn := true;
     ListView.countEl := true |}.

Definition projects : list ProjectRecord :=
  [{| title := "A"; slug := "a"; description := ""; thumbnail := "";
      tags := ["x"; "y"]; category := "Web"; featured := false;
      date := "2024-01-01"; link := "" |};
   {| title := "B"; slug := "b"; description := ""; thumbnail := "";
      tags := ["y"]; category := "Art"; featured := false;
      date := "2024-02-01"; link := "" |}].

Definition narrowed : ListView.State :=
  ListView.after (E := Sample.engine) page projects
    [ListView.TagClick "x"; ListView.Input "zz"].

End SampleView.

(** * Properties *)

(** ** Strings *)

Module StrFacts.
Import Str.

Lemma nonEmpty_false (s : string) : nonEmpty s = false <-> s = "".
Proof. destruct s; simpl; split; congruence. Qed.

Lemma nonEmpty_true (s : string) : nonEmpty s = true <-> s <> "".
Proof. destruct s; simpl; split; congruence. Qed.

Lemma trimStart_head (s : string) :
  trimStart s = "" \/
  exists c r, trimStart s = String c r /\ isWhiteSpace c = false.
Proof.
  induction s as [|c r IH]; simpl; [now left|].
  destruct (isWhiteSpace c) eqn:Hc; [exact IH|].
  right. now exists c, r.
Qed.

Lemma trimEnd_idem (s : string) : trimEnd (trimEnd s) = trimEnd s.
Proof.
  induction s as [|c r IH]; simpl; [reflexivity|].
  destruct (isWhiteSpace c && negb (nonEmpty (trimEnd r))) eqn:Hc;
    simpl; [reflexivity|].
  now rewrite IH, Hc.
Qed.

Lemma trimEnd_head (c : ascii) (r : string) :
  isWhiteSpace c = false -> trimEnd (String c r) = String c (trimEnd r).
Proof. intros Hc. simpl. now rewrite Hc. Qed.

Lemma trim_idem (s : string) : trim (trim s) = trim s.
Proof.
  unfold trim.
  destruct (trimStart_head s) as [-> | (c & r & -> & Hc)]; [reflexivity|].
  rewrite (trimEnd_head c r Hc). simpl trimStart. rewrite Hc.
  rewrite (trimEnd_head c _ Hc). now rewrite trimEnd_idem.
Qed.

Lemma trim_empty : trim "" = "".
Proof. reflexivity. Qed.

(** A string of white space only trims to the empty string. *)
Lemma trimStart_blank (s : string) :
  (forall c, In c (list_ascii_of_string s) -> isWhiteSpace c = true) ->
  trimStart s = "".
Proof.
  induction s as [|c r IH]; simpl; intros H; [reflexivity|].
  rewrite (H c (or_introl eq_refl)). apply IH. intros d Hd. apply H. now right.
Qed.

Lemma lowerChar_isWhiteSpace (c : ascii) :
  isWhiteSpace (lowerChar c) = isWhiteSpace c.
Proof. destruct c as [[] [] [] [] [] [] [] []]; reflexivity. Qed.

Lemma toLowerCase_chars (s : string) (c : ascii) :
  In c (list_ascii_of_string (toLowerCase s)) ->
  exists d, In d (list_ascii_of_string s) /\ c = lowerChar d.
Proof.
  induction s as [|d r IH]; simpl; [tauto|].
  intros [<- | H].
  - exists d. split; [now left | reflexivity].
  - destruct (IH H) as (d' & Hd' & ->). exists d'. split; [now right | reflexivity].
Qed.

Lemma prefix_spec (p s : string) :
  String.prefix p s = true <-> exists r, s = p ++ r.
Proof.
  revert s. induction p as [|c p IH]; intros s.
  - destruct s; simpl; split; eauto.
  - destruct s as [|d s]; simpl.
    + split; [discriminate | intros (r & H); discriminate].
    + destruct (ascii_dec c d) as [->|Hne].
      * rewrite IH. split; intros (r & H); exists r; [now subst | now inversion H].
      * split; [discriminate | intros (r & H); inversion H; congruence].
Qed.

(** [includes] decides the substring relation. *)
Lemma includes_spec (hay needle : string) :
  includes hay needle = true <-> exists pre post, hay = pre ++ needle ++ post.
Proof.
  induction hay as [|c r IH].
  - cbn [includes]. rewrite orb_false_r, prefix_spec. split.
    + intros (post & H). now exists "", post.
    + intros (pre & post & H). destruct pre; [now exists post | discriminate].
  - cbn [includes]. rewrite orb_true_iff, prefix_spec, IH. split.
    + intros [(post & H) | (pre & post & H)].
      * now exists "", post.
      * exists (String c pre), post. simpl. now rewrite H.
    + intros (pre & post & H). destruct pre as [|d pre].
      * left. now exists post.
      * right. exists pre, post. simpl in H. now inversion H.
Qed.

Lemma endsWith_append (s p : string) : endsWith (s ++ p) p = true.
Proof.
  induction s as [|c r IH].
  - change ("" ++ p) with p. destruct p; cbn [endsWith]; now rewrite String.eqb_refl.
  - change (String c r ++ p) with (String c (r ++ p)). cbn [endsWith].
    rewrite IH. apply orb_true_r.
Qed.

End StrFacts.

(** ** Site root and asset paths *)

Module PathFacts.
Import Str StrFacts.

Lemma endsWith_spec (s p : string) :
  endsWith s p = true <-> exists pre, s = pre ++ p.
Proof.
  split.
  - induction s as [|c r IH]; cbn [endsWith]; rewrite orb_true_iff.
    + intros [H | H]; [|discriminate].
      apply String.eqb_eq in H. now exists "".
    + intros [H | H].
      * apply String.eqb_eq in H. now exists "".
      * destruct (IH H) as (pre & ->). now exists (String c pre).
  - intros (pre & ->). apply endsWith_append.
Qed.

Lemma eqIgnoreCase_spec (c l u : ascii) :
  eqIgnoreCase c l u = true <-> c = l \/ c = u.
Proof.
  unfold eqIgnoreCase. now rewrite orb_true_iff, !Ascii.eqb_eq.
Qed.

(** C9: for every site-root configuration value, absent or present, the
    resolved base path ends with the path separator, and it is exactly
    "./" when the value is absent or the empty string. *)
Theorem getSiteRoot_ends_with_separator (meta : option string) :
  (exists pre, getSiteRoot meta = pre ++ "/")
  /\ getSiteRoot None = "./"
  /\ getSiteRoot (Some "") = "./".
Proof.
  split; [|split; reflexivity].
  unfold getSiteRoot.
  match goal with |- context [endsWith ?r "/"] => set (root := r) end.
  destruct (endsWith root "/") eqn:Hend; cbn [negb].
  - now apply endsWith_spec.
  - exists root. reflexivity.
Qed.

(** White space around the configured value is ignored, and a value of
    white space only counts as unset. *)
Lemma getSiteRoot_trims (content : string) :
  nonEmpty content = true ->
  getSiteRoot (Some content) = getSiteRoot (Some (trim content))
  \/ trim content = "" /\ getSiteRoot (Some content) = "./".
Proof.
  intros Hc. destruct (nonEmpty (trim content)) eqn:Ht.
  - left. unfold getSiteRoot. now rewrite Hc, Ht, trim_idem, ?Ht.
  - right. apply nonEmpty_false in Ht. unfold getSiteRoot. rewrite Hc, Ht. now split.
Qed.

(** C7: thumbnail resolution.  An empty path gives the placeholder; an
    http(s) URL or a data: URI is returned as it is; any other path loses
    one leading solidus, if it has one, and is prefixed with the site
    root; under the site root "./" both "assets/a.png" and
    "/assets/a.png" resolve to "./assets/a.png". *)
Theorem resolveAssetPath_cases (SITE_ROOT path : string) :
  (path = "" ->
   resolveAssetPath SITE_ROOT path = SITE_ROOT ++ "assets/thumbs/placeholder.svg")
  /\ (isExternal path = true \/ (exists r, path = "data:" ++ r) ->
      resolveAssetPath SITE_ROOT path = path)
  /\ (path <> "" -> isExternal path = false -> (forall r, path <> "data:" ++ r) ->
      (forall r, path = "/" ++ r -> resolveAssetPath SITE_ROOT path = SITE_ROOT ++ r)
      /\ ((forall r, path <> "/" ++ r) ->
          resolveAssetPath SITE_ROOT path = SITE_ROOT ++ path))
  /\ resolveAssetPath "./" "assets/a.png" = "./assets/a.png"
  /\ resolveAssetPath "./" "/assets/a.png" = "./assets/a.png".
Proof.
  repeat split; try reflexivity.
  - intros ->. reflexivity.
  - intros H. unfold resolveAssetPath.
    destruct path as [|c r]; [destruct H as [H | (r & H)]; discriminate|].
    cbn [nonEmpty negb].
    assert (Hor : isExternal (String c r) || startsWith (String c r) "data:" = true).
    { apply orb_true_iff. destruct H as [H | H]; [now left | right].
      now apply prefix_spec. }
    now rewrite Hor.
  - intros r ->. unfold resolveAssetPath.
    cbn [nonEmpty negb]. rewrite H0.
    destruct (startsWith ("/" ++ r) "data:") eqn:Hd; [discriminate|].
    reflexivity.
  - intros Hslash. unfold resolveAssetPath.
    destruct path as [|c r]; [congruence|]. cbn [nonEmpty negb]. rewrite H0.
    destruct (startsWith (String c r) "data:") eqn:Hd.
    + apply prefix_spec in Hd. destruct Hd as (r' & Hd). now elim (H1 r').
    + cbn [orb]. unfold stripLeadingSlash.
      destruct (ascii_dec c "/") as [-> | Hne].
      * now elim (Hslash r).
      * destruct c as [[] [] [] [] [] [] [] []]; try reflexivity. now elim Hne.
Qed.

Lemma resolveAssetPath_cases_witness :
  resolveAssetPath "../" "" = "../assets/thumbs/placeholder.svg"
  /\ resolveAssetPath "../" "HTTPS://cdn.example/a.png" = "HTTPS://cdn.example/a.png"
  /\ resolveAssetPath "../" "//a.png" = "..//a.png"
  /\ resolveAssetPath "../" "a.png" = "../a.png".
Proof.
  split; [|split; [|split]].
  - apply (proj1 (resolveAssetPath_cases "../" "")). reflexivity.
  - apply (proj1 (proj2 (resolveAssetPath_cases "../" "HTTPS://cdn.example/a.png"))).
    left. reflexivity.
  - refine (proj1 (proj1 (proj2 (proj2 (resolveAssetPath_cases "../" "//a.png")))
                     _ _ _) "/a.png" eq_refl).
    + discriminate.
    + reflexivity.
    + intros r. discriminate.
  - refine (proj2 (proj1 (proj2 (proj2 (resolveAssetPath_cases "../" "a.png")))
                     _ _ _) _).
    + discriminate.
    + reflexivity.
    + intros r. discriminate.
    + intros r. discriminate.
Defined.

(** X1: [isExternal] recognises exactly the strings that start with the
    scheme http or https, in any letter case, followed by "://". *)
Lemma isExternal_spec (url : string) :
  isExternal url = true <->
  exists scheme rest,
    url = scheme ++ "://" ++ rest
    /\ (toLowerCase scheme = "http" \/ toLowerCase scheme = "https").
Proof.
  assert (L : forall c l u, lowerChar l = l -> lowerChar u = l ->
                (forall d, lowerChar d = l -> d = l \/ d = u) ->
                eqIgnoreCase c l u = true <-> lowerChar c = l).
  { intros c l u Hl Hu Hall. rewrite eqIgnoreCase_spec. split.
    - intros [-> | ->]; assumption.
    - apply Hall. }
  assert (Hh : forall c, eqIgnoreCase c "h" "H" = true <-> lowerChar c = "h"%char).
  { intros c. apply L; try reflexivity.
    intros d. destruct d as [[] [] [] [] [] [] [] []]; cbv; intros H;
      first [discriminate H | now left | now right]. }
  assert (Ht : forall c, eqIgnoreCase c "t" "T" = true <-> lowerChar c = "t"%char).
  { intros c. apply L; try reflexivity.
    intros d. destruct d as [[] [] [] [] [] [] [] []]; cbv; intros H;
      first [discriminate H | now left | now right]. }
  assert (Hp : forall c, eqIgnoreCase c "p" "P" = true <-> lowerChar c = "p"%char).
  { intros c. apply L; try reflexivity.
    intros d. destruct d as [[] [] [] [] [] [] [] []]; cbv; intros H;
      first [discriminate H | now left | now right]. }
  assert (Hs : forall c, eqIgnoreCase c "s" "S" = true <-> lowerChar c = "s"%char).
  { intros c. apply L; try reflexivity.
    intros d. destruct d as [[] [] [] [] [] [] [] []]; cbv; intros H;
      first [discriminate H | now left | now right]. }
  split.
  - destruct url as [|h [|t1 [|t2 [|p r]]]]; try discriminate.
    cbn [isExternal]. rewrite !andb_true_iff, orb_true_iff.
    rewrite Hh, !Ht, Hp. intros ((((H1 & H2) & H3) & H4) & [H5 | H5]).
    + apply prefix_spec in H5. destruct H5 as (rest & ->).
      exists (String h (String t1 (String t2 (String p "")))), rest.
      split; [reflexivity|]. left. cbn. now rewrite H1, H2, H3, H4.
    + destruct r as [|s r']; [discriminate|].
      apply andb_true_iff in H5. destruct H5 as (H5 & H6).
      apply Hs in H5. apply prefix_spec in H6. destruct H6 as (rest & ->).
      exists (String h (String t1 (String t2 (String p (String s ""))))), rest.
      split; [reflexivity|]. right. cbn. now rewrite H1, H2, H3, H4, H5.
  - intros (scheme & rest & -> & [H | H]).
    + destruct scheme as [|h [|t1 [|t2 [|p [|]]]]]; try discriminate H.
      cbn in H. inversion H as [[H1 H2 H3 H4]].
      cbn [append isExternal]. rewrite !andb_true_iff, orb_true_iff.
      rewrite Hh, !Ht, Hp. repeat split; try congruence.
      left. apply prefix_spec. now exists rest.
    + destruct scheme as [|h [|t1 [|t2 [|p [|s [|]]]]]]; try discriminate H.
      cbn in H. inversion H as [[H1 H2 H3 H4 H5]].
      cbn [append isExternal]. rewrite !andb_true_iff, orb_true_iff.
      rewrite Hh, !Ht, Hp. repeat split; try congruence. right.
      apply andb_true_iff. split; [now apply Hs | apply prefix_spec; now exists rest].
Qed.

End PathFacts.

(** ** The exception monad *)

Lemma bind_Ok {A B : Type} (m : result A) (k : A -> result B) (b : B) :
  bind m k = Ok b -> exists a, m = Ok a /\ k a = Ok b.
Proof. destruct m as [a|e]; simpl; [eauto | discriminate]. Qed.

Lemma bind_Throw {A B : Type} (m : result A) (k : A -> result B) (e : exn) :
  bind m k = Throw e -> m = Throw e \/ exists a, m = Ok a /\ k a = Throw e.
Proof. destruct m as [a|e']; simpl; [eauto | intros [= ->]; now left]. Qed.

Lemma mapM_Ok {A B : Type} (f : A -> result B) (xs : list A) (ys : list B) :
  mapM f xs = Ok ys -> Forall2 (fun x y => f x = Ok y) xs ys.
Proof.
  revert ys. induction xs as [|x r IH]; simpl; intros ys H.
  - injection H as <-. constructor.
  - apply bind_Ok in H. destruct H as (y & Hy & H).
    apply bind_Ok in H. destruct H as (ys' & Hys & H).
    injection H as <-. constructor; auto.
Qed.

Lemma mapM_defined {A B : Type} (f : A -> result B) (xs : list A) :
  Forall (fun x => exists y, f x = Ok y) xs -> exists ys, mapM f xs = Ok ys.
Proof.
  induction 1 as [|x r (y & Hy) _ (ys & Hys)]; simpl.
  - now exists [].
  - rewrite Hy, Hys. simpl. now exists (y :: ys).
Qed.

Lemma mapM_Throw {A B : Type} (f : A -> result B) (xs : list A) (e : exn) :
  mapM f xs = Throw e -> exists x, In x xs /\ f x = Throw e.
Proof.
  induction xs as [|x r IH]; simpl; [discriminate|].
  intros H. apply bind_Throw in H. destruct H as [H | (y & Hy & H)].
  - exists x. auto.
  - apply bind_Throw in H. destruct H as [H | (ys & _ & H)]; [|discriminate].
    destruct (IH H) as (x' & Hin & Hx'). exists x'. auto.
Qed.

Ltac inv_bind H :=
  let a := fresh "a" in
  let Ha := fresh "Ha" in
  apply bind_Ok in H; destruct H as (a & Ha & H).

Tactic Notation "inv_bind_as" hyp(H) ident(a) ident(Ha) :=
  apply bind_Ok in H; destruct H as (a & Ha & H).

(** ** Values and normalisation *)

Section NormalizeFacts.
Context {E : Engine}.
Import Str StrFacts.

(** Induction on parsed values, with the hypothesis for every element of
    an array. *)
Lemma json_array_ind (P : json -> Prop) :
  P JNull -> (forall b, P (JBool b)) -> (forall n, P (JNum n)) ->
  (forall s, P (JStr s)) ->
  (forall elems, Forall P elems -> P (JArr elems)) ->
  (forall props, P (JObj props)) ->
  forall j, P j.
Proof.
  intros HNull HBool HNum HStr HArr HObj.
  fix IH 1.
  intros [ | b | n | s | elems | props];
    [exact HNull | apply HBool | apply HNum | apply HStr | | apply HObj].
  apply HArr. induction elems as [|e r IHr]; constructor; [apply IH | exact IHr].
Qed.


Lemma toStr_JArr (elems : list json) :
  toStr (JArr elems) = (parts <- mapM elemStr elems ;; Ok (join "," parts)).
Proof.
  cbn [toStr]. f_equal.
  induction elems as [|e r IH]; [reflexivity|].
  cbn [mapM]. rewrite <- IH. reflexivity.
Qed.

Lemma toStr_TypeError (j : json) (e : exn) : toStr j = Throw e -> e = TypeError.
Proof.
  induction j as [ | b | n | s | elems IH | props] using json_array_ind;
    try discriminate.
  - rewrite toStr_JArr. intros H.
    apply bind_Throw in H. destruct H as [H | (parts & _ & H)]; [|discriminate].
    apply mapM_Throw in H. destruct H as (x & Hin & Hx).
    rewrite Forall_forall in IH. destruct x; try discriminate; now apply (IH _ Hin).
  - cbn [toStr]. destruct (hasOwn "toString" props); [|discriminate].
    now intros [= <-].
Qed.

Lemma toStr_printable (j : json) : printable j = true -> exists s, toStr j = Ok s.
Proof.
  induction j as [ | b | n | s | elems IH | props] using json_array_ind;
    try (cbn; eauto; fail).
  - cbn [printable]. rewrite forallb_forall, toStr_JArr. intros Hall.
    destruct (mapM_defined elemStr elems) as (parts & ->).
    + rewrite Forall_forall in *. intros x Hin.
      destruct (IH x Hin (Hall x Hin)) as (s & Hs).
      destruct x; cbn [elemStr]; eauto.
    + cbn. eauto.
  - cbn. destruct (hasOwn "toString" props); [discriminate | eauto].
Qed.

Lemma getProp_defined (p : json) (k : string) :
  p <> JNull -> exists v, getProp p k = Ok v.
Proof. destruct p; cbn; intros H; eauto. congruence. Qed.

Lemma getProp_Throw (p : json) (k : string) (e : exn) :
  getProp p k = Throw e -> p = JNull /\ e = TypeError.
Proof. destruct p; cbn; try discriminate. now intros [= <-]. Qed.

Lemma ToString_TypeError (v : value) (e : exn) : ToString v = Throw e -> e = TypeError.
Proof. destruct v; cbn; try discriminate. apply toStr_TypeError. Qed.

Lemma stringField_trimmed (p : json) (k dflt s : string) :
  stringField p k dflt = Ok s -> trimmed s.
Proof.
  unfold stringField. intros H. inv_bind H. inv_bind H.
  injection H as <-. apply trim_idem.
Qed.

Lemma stringField_TypeError (p : json) (k dflt : string) (e : exn) :
  stringField p k dflt = Throw e -> e = TypeError.
Proof.
  unfold stringField. intros H.
  apply bind_Throw in H. destruct H as [H | (v & _ & H)].
  - now apply getProp_Throw in H.
  - apply bind_Throw in H. destruct H as [H | (s & _ & H)]; [|discriminate].
    now apply ToString_TypeError in H.
Qed.

(** Reading a string field of a value that is not [null], where the
    value of the property prints: the result is the trimmed text of the
    value when it is truthy and the trimmed default otherwise. *)
Lemma stringField_value (p : json) (k dflt : string) :
  p <> JNull ->
  (forall j, getProp p k = Ok (VJson j) -> printable j = true) ->
  exists out, stringField p k dflt = Ok out
    /\ forall v, getProp p k = Ok v ->
         (truthy v = false -> out = trim dflt)
         /\ (forall s, truthy v = true -> ToString v = Ok s -> out = trim s).
Proof.
  intros Hp Hprint. destruct (getProp_defined p k Hp) as (v & Hv).
  unfold stringField, orElse. rewrite Hv. cbn [bind].
  destruct (truthy v) eqn:Htr.
  - assert (Hs : exists s, ToString v = Ok s).
    { destruct v as [ | j | ]; cbn; eauto.
      apply toStr_printable. now apply Hprint. }
    destruct Hs as (s & Hs). rewrite Hs. cbn. eexists. split; [reflexivity|].
    intros v' [= <-]. split; [congruence|]. intros s' _ Hs'. congruence.
  - cbn. eexists. split; [reflexivity|].
    intros v' [= <-]. split; [reflexivity|]. congruence.
Qed.

Lemma tagsField_shape (p : json) (ts : list string) :
  tagsField p = Ok ts -> Forall (fun t => trimmed t /\ t <> "") ts.
Proof.
  unfold tagsField. intros H. inv_bind H.
  destruct a as [ | [ | | | | elems | ] | ];
    try (injection H as <-; constructor).
  inv_bind H. injection H as <-.
  apply mapM_Ok in Ha0. apply Forall_forall. intros t Ht.
  apply filter_In in Ht. destruct Ht as (Hin & Hne). split.
  - clear Hne Ha. induction Ha0 as [|x y xs ys Hxy _ IH]; [contradiction|].
    destruct Hin as [<- | Hin]; [|now apply IH].
    inv_bind Hxy. injection Hxy as <-. apply trim_idem.
  - now apply nonEmpty_true.
Qed.

Lemma tagsField_TypeError (p : json) (e : exn) : tagsField p = Throw e -> e = TypeError.
Proof.
  unfold tagsField. intros H.
  apply bind_Throw in H. destruct H as [H | (v & _ & H)].
  - now apply getProp_Throw in H.
  - destruct v as [ | [ | | | | elems | ] | ]; try discriminate.
    apply bind_Throw in H. destruct H as [H | (s & _ & H)]; [|discriminate].
    apply mapM_Throw in H. destruct H as (x & _ & H).
    apply bind_Throw in H. destruct H as [H | (s & _ & H)]; [|discriminate].
    now apply toStr_TypeError in H.
Qed.

Lemma mapM_trim_exact (elems : list json) (ts : list string) :
  mapM (fun t => s <- toStr t ;; Ok (trim s)) elems = Ok ts ->
  exists ss, Forall2 (fun e s => toStr e = Ok s) elems ss /\ ts = map trim ss.
Proof.
  intros H. apply mapM_Ok in H.
  induction H as [|e t es ts' Het _ (ss & Hss & ->)].
  - exists []. split; [constructor | reflexivity].
  - inv_bind_as Het s Hs. injection Het as <-.
    exists (s :: ss). split; [now constructor | reflexivity].
Qed.

(** The tags of an array: its elements converted, trimmed, in order,
    without the empty results. *)
Lemma tagsField_exact (p : json) (ts : list string) (elems : list json) :
  tagsField p = Ok ts ->
  getProp p "tags" = Ok (VJson (JArr elems)) ->
  exists ss, Forall2 (fun e s => toStr e = Ok s) elems ss
             /\ ts = filter nonEmpty (map trim ss).
Proof.
  unfold tagsField. intros H Hel. rewrite Hel in H. cbn [bind] in H.
  inv_bind_as H xs Hxs. injection H as <-.
  destruct (mapM_trim_exact elems xs Hxs) as (ss & Hss & ->). now exists ss.
Qed.

Lemma tagsField_value (p : json) :
  p <> JNull ->
  (forall elems, getProp p "tags" = Ok (VJson (JArr elems)) ->
                 forallb printable elems = true) ->
  exists ts, tagsField p = Ok ts
    /\ ((forall elems, getProp p "tags" <> Ok (VJson (JArr elems))) -> ts = [])
    /\ (forall elems, getProp p "tags" = Ok (VJson (JArr elems)) ->
        exists ss, Forall2 (fun e s => toStr e = Ok s) elems ss
                   /\ ts = filter nonEmpty (map trim ss)).
Proof.
  intros Hp Hprint. destruct (getProp_defined p "tags" Hp) as (v & Hv).
  assert (Hdef : exists ts, tagsField p = Ok ts
                            /\ ((forall elems, v <> VJson (JArr elems)) -> ts = [])).
  { unfold tagsField. rewrite Hv. cbn [bind].
    destruct v as [ | [ | | | | elems | ] | ];
      try (eexists; split; [reflexivity | reflexivity]).
    specialize (Hprint elems Hv). rewrite forallb_forall in Hprint.
    destruct (mapM_defined (fun t => s <- toStr t ;; Ok (trim s)) elems) as (ts & ->).
    - apply Forall_forall. intros x Hin.
      destruct (toStr_printable x (Hprint x Hin)) as (s & ->). cbn. eauto.
    - cbn. eexists. split; [reflexivity|]. intros Hno. now elim (Hno elems). }
  destruct Hdef as (ts & Hts & Hnot). exists ts. split; [exact Hts|]. split.
  - intros Hno. apply Hnot. intros elems ->. now apply (Hno elems).
  - intros elems Hel. now apply (tagsField_exact p ts elems).
Qed.

Lemma printable_props (props : list (string * json)) :
  Forall (fun kv => printable (snd kv) = true) props ->
  forall k j, getProp (JObj props) k = Ok (VJson j) -> printable j = true.
Proof.
  intros Hall k j. cbn [getProp].
  induction Hall as [|[k' v] r Hv _ IH]; cbn [lookup]; [discriminate|].
  destruct (String.eqb k k'); [|exact IH].
  now intros [= <-].
Qed.

Lemma normalizeProject_TypeError (p : json) (e : exn) :
  normalizeProject p = Throw e -> e = TypeError.
Proof.
  unfold normalizeProject. intros H.
  repeat match type of H with
         | bind _ _ = Throw _ =>
             apply bind_Throw in H;
             destruct H as [H | (? & _ & H)]
         end;
    try discriminate;
    try (now apply stringField_TypeError in H);
    try (now apply tagsField_TypeError in H);
    try (now apply getProp_Throw in H).
  destruct (truthy _); [|discriminate].
  apply bind_Throw in H. destruct H as [H | (? & _ & H)]; [|discriminate].
  now apply ToString_TypeError in H.
Qed.

(** What [normalizeProject] returns is trimmed field by field, has no
    empty tag and a non-empty category. *)
Lemma normalizeProject_Normalized (p : json) (r : ProjectRecord) :
  normalizeProject p = Ok r -> Normalized r.
Proof.
  unfold normalizeProject. intros H.
  inv_bind_as H t Ht. inv_bind_as H sl Hsl. inv_bind_as H d Hd.
  inv_bind_as H th Hth. inv_bind_as H tg Htg. inv_bind_as H c Hc.
  inv_bind_as H f Hf. inv_bind_as H dt Hdt. inv_bind_as H l Hl.
  injection H as <-.
  inv_bind_as Hc c0 Hc0. injection Hc as <-.
  inv_bind_as Hl vl Hvl.
  constructor; cbn;
    try (eapply stringField_trimmed; eassumption).
  - eapply tagsField_shape; eassumption.
  - destruct (nonEmpty c0) eqn:Hne.
    + split; [eapply stringField_trimmed; eassumption | now apply nonEmpty_true].
    + split; [reflexivity | discriminate].
  - destruct (truthy vl).
    + inv_bind_as Hl s Hs. injection Hl as <-. apply trim_idem.
    + injection Hl as <-. reflexivity.
Qed.

Lemma stringField_JStr (props : list (string * json)) (k dflt s : string) :
  lookup k props = Some (JStr s) -> trimmed s ->
  stringField (JObj props) k dflt = Ok (if nonEmpty s then s else trim dflt).
Proof.
  intros Hk Hs. unfold stringField, orElse. cbn [getProp]. rewrite Hk.
  cbn [bind truthy truthyJson]. destruct (nonEmpty s); cbn; [now rewrite Hs | reflexivity].
Qed.

Lemma tags_asJson (ts : list string) :
  Forall (fun t => trimmed t /\ t <> "") ts ->
  (xs <- mapM (fun t => s <- toStr t ;; Ok (trim s)) (map JStr ts) ;;
   Ok (filter nonEmpty xs)) = Ok ts.
Proof.
  induction 1 as [|t r (Ht & Hne) _ IH]; [reflexivity|].
  cbn [map mapM toStr bind]. rewrite Ht.
  destruct (mapM _ (map JStr r)) as [xs|e]; [|discriminate].
  cbn in IH |- *. injection IH as IH.
  apply nonEmpty_true in Hne. now rewrite Hne, IH.
Qed.

Lemma normalizeProject_asJson (r : ProjectRecord) :
  Normalized r -> normalizeProject (asJson r) = Ok r.
Proof.
  destruct r as [t sl d th tg c f dt l]. intros [Ht Hsl Hd Hth Htg [Hc Hcne] Hdt Hl].
  cbn [title slug description thumbnail tags category featured date link] in *.
  unfold normalizeProject, asJson. cbn [title slug description thumbnail tags category featured date link].
  match goal with |- context [stringField (JObj ?ps)] => set (props := ps) end.
  rewrite (stringField_JStr props "title" "" t eq_refl Ht).
  rewrite (stringField_JStr props "slug" "" sl eq_refl Hsl).
  rewrite (stringField_JStr props "description" "" d eq_refl Hd).
  rewrite (stringField_JStr props "thumbnail" "" th eq_refl Hth).
  rewrite (stringField_JStr props "category" "Other" c eq_refl Hc).
  rewrite (stringField_JStr props "date" "" dt eq_refl Hdt).
  unfold tagsField. subst props.
  cbn [getProp lookup String.eqb Ascii.eqb Bool.eqb bind].
  rewrite (tags_asJson tg Htg). cbn [bind truthy truthyJson ToString toStr].
  apply nonEmpty_true in Hcne. rewrite Hcne. cbn [nonEmpty].
  rewrite Hcne.
  assert (Hid : forall x, (if nonEmpty x then x else trim "") = x) by now intros [|].
  rewrite !Hid.
  destruct l as [|lc lr]; cbn [nonEmpty bind]; [reflexivity|].
  now rewrite Hl.
Qed.

(** C8: normalisation is idempotent.  Normalising the record that
    [normalizeProject] returned gives that record again, field by field;
    where the first normalisation throws there is no record to normalise
    and the composition throws the same exception. *)
Theorem normalizeProject_idempotent (p : json) :
  (r <- normalizeProject p ;; normalizeProject (asJson r)) = normalizeProject p.
Proof.
  destruct (normalizeProject p) as [r|e] eqn:Hp; cbn [bind]; [|reflexivity].
  apply normalizeProject_asJson. exact (normalizeProject_Normalized p r Hp).
Qed.

(** C3, as the code has it: the normaliser returns a record for every raw
    value other than [null] in which the seven properties it converts to
    a string, and the elements of [tags] when it is an array, print (no
    own [toString] property is reached).  In that record a string field
    is the default when the raw value is falsy (missing, null, false,
    zero or the empty string) and otherwise the raw value, of whatever
    type, converted with [String] and trimmed (a category that trims to
    nothing is "Other"); [featured] is the truthiness of the raw value;
    [tags] is empty when the raw [tags] is not an array and otherwise its
    elements converted, trimmed, in order, without the empty results. *)
Theorem normalizeProject_defined (p : json) :
  p <> JNull ->
  (forall k j, In k stringKeys -> getProp p k = Ok (VJson j) -> printable j = true) ->
  (forall elems, getProp p "tags" = Ok (VJson (JArr elems)) ->
                 forallb printable elems = true) ->
  exists r, normalizeProject p = Ok r
    /\ (forall k field,
          In (k, field) [("title", title r); ("slug", slug r);
                         ("description", description r);
                         ("thumbnail", thumbnail r); ("date", date r);
                         ("link", link r)] ->
          forall v, getProp p k = Ok v ->
            (truthy v = false -> field = "")
            /\ (forall s, truthy v = true -> ToString v = Ok s -> field = trim s))
    /\ (forall v, getProp p "category" = Ok v ->
          (truthy v = false -> category r = "Other")
          /\ (forall s, truthy v = true -> ToString v = Ok s ->
                category r = if nonEmpty (trim s) then trim s else "Other"))
    /\ (forall v, getProp p "featured" = Ok v -> featured r = truthy v)
    /\ ((forall elems, getProp p "tags" <> Ok (VJson (JArr elems))) -> tags r = [])
    /\ (forall elems, getProp p "tags" = Ok (VJson (JArr elems)) ->
          exists ss, Forall2 (fun e s => toStr e = Ok s) elems ss
                     /\ tags r = filter nonEmpty (map trim ss)).
Proof.
  intros Hp Hprint Htags.
  assert (K : forall k, In k stringKeys ->
                forall j, getProp p k = Ok (VJson j) -> printable j = true).
  { intros k Hk j. now apply Hprint. }
  destruct (stringField_value p "title" "" Hp (K "title" ltac:(cbn; tauto)))
    as (t & Ht & Dt).
  destruct (stringField_value p "slug" "" Hp (K "slug" ltac:(cbn; tauto)))
    as (sl & Hsl & Dsl).
  destruct (stringField_value p "description" "" Hp (K "description" ltac:(cbn; tauto)))
    as (d & Hd & Dd).
  destruct (stringField_value p "thumbnail" "" Hp (K "thumbnail" ltac:(cbn; tauto)))
    as (th & Hth & Dth).
  destruct (tagsField_value p Hp Htags) as (tg & Htg & Dtg0 & Dtg1).
  destruct (stringField_value p "category" "Other" Hp (K "category" ltac:(cbn; tauto)))
    as (c & Hc & Dc).
  destruct (stringField_value p "date" "" Hp (K "date" ltac:(cbn; tauto)))
    as (dt & Hdt & Ddt).
  destruct (getProp_defined p "featured" Hp) as (vf & Hvf).
  destruct (getProp_defined p "link" Hp) as (vl & Hvl).
  assert (Hl : exists l, (if truthy vl then s <- ToString vl ;; Ok (trim s) else Ok "")
                         = Ok l
                         /\ (truthy vl = false -> l = "")
                         /\ (forall s, truthy vl = true -> ToString vl = Ok s ->
                                       l = trim s)).
  { destruct (truthy vl) eqn:Htr.
    - assert (Hs : exists s, ToString vl = Ok s).
      { destruct vl as [ | j | ]; cbn; eauto.
        apply toStr_printable. apply (K "link"); [cbn; tauto | assumption]. }
      destruct Hs as (s & Hs). rewrite Hs. cbn. eexists.
      split; [reflexivity|]. split; [discriminate|]. intros s' _ Hs'. congruence.
    - eexists. split; [reflexivity|]. split; [reflexivity | discriminate]. }
  destruct Hl as (l & Hl & Dl0 & Dl1).
  unfold normalizeProject. rewrite Ht, Hsl, Hd, Hth, Htg, Hc, Hdt, Hvf, Hvl.
  cbn [bind]. rewrite Hl. cbn [bind].
  eexists. split; [reflexivity|].
  cbn [title slug description thumbnail tags category featured date link].
  split; [|split; [|split; [|split]]].
  - intros k field Hin v Hv. cbn [In] in Hin.
    destruct Hin as [H | [H | [H | [H | [H | [H | []]]]]]];
      injection H as <- <-.
    + exact (Dt v Hv).
    + exact (Dsl v Hv).
    + exact (Dd v Hv).
    + exact (Dth v Hv).
    + exact (Ddt v Hv).
    + assert (v = vl) by congruence. subst v. split; assumption.
  - intros v Hv. destruct (Dc v Hv) as (D0 & D1). split.
    + intros Hf. now rewrite (D0 Hf).
    + intros s Htr Hs. now rewrite (D1 s Htr Hs).
  - intros v Hv. congruence.
  - exact Dtg0.
  - exact Dtg1.
Qed.

End NormalizeFacts.

Lemma normalizeProject_defined_witness :
  exists r,
    normalizeProject (E := Sample.engine)
      (JObj [("title", JBool true); ("slug", JNull); ("tags", JStr "x");
             ("category", JStr "  "); ("featured", JStr "yes")]) = Ok r
    /\ title r = "true" /\ slug r = "" /\ tags r = [] /\ category r = "Other"
    /\ featured r = true.
Proof.
  destruct (normalizeProject_defined (E := Sample.engine)
              (JObj [("title", JBool true); ("slug", JNull); ("tags", JStr "x");
                     ("category", JStr "  "); ("featured", JStr "yes")]))
    as (r & Hr & Hstr & Hcat & Hfeat & Htags & _).
  - discriminate.
  - intros k j _. apply printable_props. repeat constructor.
  - intros elems. discriminate.
  - exists r. split; [exact Hr|]. repeat split.
    + refine (proj2 (Hstr "title" (title r) _ (VJson (JBool true)) eq_refl)
                    "true" eq_refl eq_refl).
      left. reflexivity.
    + refine (proj1 (Hstr "slug" (slug r) _ (VJson JNull) eq_refl) eq_refl).
      right. left. reflexivity.
    + apply Htags. intros elems. discriminate.
    + exact (proj2 (Hcat (VJson (JStr "  ")) eq_refl) "  " eq_refl eq_refl).
    + exact (Hfeat (VJson (JStr "yes")) eq_refl).
Defined.

(** C3 as stated fails: reading a property of [null] throws, and a truthy
    value of the wrong type is converted to a string, not replaced by the
    default. *)
Lemma normalizeProject_null_throws :
  normalizeProject (E := Sample.engine) JNull = Throw TypeError
  /\ exists r,
       normalizeProject (E := Sample.engine)
         (JObj [("title", JBool true); ("slug", JStr "s")]) = Ok r
       /\ title r = "true".
Proof.
  split; [reflexivity|]. eexists. split; reflexivity.
Qed.

(** ** The loader *)

Section LoaderFacts.
Context {E : Engine}.
Import Str StrFacts.

Lemma loadProjects_Ok (f : fetched) (l : list ProjectRecord) :
  loadProjects f = Ok l ->
  exists res data ps,
    f = Resolved res /\ ok res = true /\ body res = Some data
    /\ mapM normalizeProject (match data with JArr elems => elems | _ => [] end) = Ok ps
    /\ l = filter keepProject ps.
Proof.
  unfold loadProjects. destruct f as [|res]; cbn [bind]; [discriminate|].
  destruct (ok res) eqn:Hok; cbn [negb]; [|discriminate].
  destruct (body res) as [data|] eqn:Hbody; cbn [bind]; [|discriminate].
  intros H. inv_bind_as H ps Hps. injection H as <-.
  now exists res, data, ps.
Qed.

Lemma stringField_blank (p : json) (k s : string) :
  stringField p k "" = Ok s -> blankProp p k -> s = "".
Proof.
  unfold stringField, orElse.
  intros H [Hb | (s0 & Hb & Htrim)]; rewrite Hb in H; cbn in H.
  - now injection H as <-.
  - destruct (nonEmpty s0); cbn in H; injection H as <-; [exact Htrim | reflexivity].
Qed.

Lemma normalizeProject_title_slug (p : json) (r : ProjectRecord) :
  normalizeProject p = Ok r ->
  stringField p "title" "" = Ok (title r) /\ stringField p "slug" "" = Ok (slug r).
Proof.
  unfold normalizeProject. intros H.
  inv_bind_as H t Ht. inv_bind_as H sl Hsl. inv_bind_as H d Hd.
  inv_bind_as H th Hth. inv_bind_as H tg Htg. inv_bind_as H c Hc.
  inv_bind_as H f Hf. inv_bind_as H dt Hdt. inv_bind_as H l Hl.
  injection H as <-. now split.
Qed.

Lemma keepProject_spec (r : ProjectRecord) :
  keepProject r = true <-> title r <> "" /\ slug r <> "".
Proof.
  unfold keepProject. now rewrite andb_true_iff, !nonEmpty_true.
Qed.

(** C4: whenever the loader returns a list, every record of it has a
    non-empty title and slug, no empty tag and a non-empty category; a
    normalised raw record is in the list exactly when its title and slug
    are non-empty, so a raw record whose title or slug is missing or
    empty after trimming is left out. *)
Theorem loadProjects_invariants (f : fetched) (l : list ProjectRecord) :
  loadProjects f = Ok l ->
  Forall (fun r => title r <> "" /\ slug r <> ""
                   /\ ~ In "" (tags r) /\ category r <> "") l
  /\ (forall res elems p r,
        f = Resolved res -> body res = Some (JArr elems) ->
        In p elems -> normalizeProject p = Ok r ->
        (In r l <-> title r <> "" /\ slug r <> "")
        /\ (blankProp p "title" \/ blankProp p "slug" -> ~ In r l)).
Proof.
  intros H. apply loadProjects_Ok in H.
  destruct H as (res & data & ps & -> & Hok & Hbody & Hps & ->).
  apply mapM_Ok in Hps. split.
  - apply Forall_forall. intros r Hr. apply filter_In in Hr.
    destruct Hr as (Hin & Hkeep). apply keepProject_spec in Hkeep.
    destruct Hkeep as (Ht & Hs).
    assert (Hn : Normalized r).
    { clear Hbody. induction Hps as [|x y xs ys Hxy _ IH]; [contradiction|].
      destruct Hin as [<- | Hin]; [|now apply IH].
      now apply normalizeProject_Normalized in Hxy. }
    destruct Hn as [_ _ _ _ Htags [_ Hcat] _ _].
    repeat split; try assumption.
    intros Hempty. rewrite Forall_forall in Htags.
    now destruct (Htags "" Hempty) as (_ & Hne).
  - intros res' elems p r [= <-] Hb Hp Hr.
    rewrite Hbody in Hb. injection Hb as ->.
    assert (Hiff : In r (filter keepProject ps) <-> title r <> "" /\ slug r <> "").
    { rewrite filter_In, keepProject_spec. split; [tauto|]. intros Hk. split; [|exact Hk].
      clear Hbody. induction Hps as [|x y xs ys Hxy _ IH]; [contradiction|].
      destruct Hp as [<- | Hp]; [left; congruence | right; now apply IH]. }
    split; [exact Hiff|].
    intros Hblank Hin. apply Hiff in Hin. destruct Hin as (Ht & Hs).
    destruct (normalizeProject_title_slug p r Hr) as (Ft & Fs).
    destruct Hblank as [Hb | Hb].
    + now apply Ht, (stringField_blank p "title").
    + now apply Hs, (stringField_blank p "slug").
Qed.

Lemma mapM_normalize_Throw (elems : list json) (p : json) (e : exn) :
  In p elems -> normalizeProject p = Throw e ->
  mapM normalizeProject elems = Throw TypeError.
Proof.
  intros Hin Hp. induction elems as [|x r IH]; [contradiction|]. cbn [mapM].
  destruct (normalizeProject x) as [y|e'] eqn:Hx; cbn [bind].
  - destruct Hin as [-> | Hin]; [congruence|]. now rewrite (IH Hin).
  - now rewrite (normalizeProject_TypeError x e' Hx).
Qed.

(** Every way the loader throws, among the outcomes of the fetch that
    [fetched] distinguishes. *)
Lemma loadProjects_throws_iff (f : fetched) (e : exn) :
  loadProjects f = Throw e <->
    (f = Rejected /\ e = TypeError)
    \/ (exists res, f = Resolved res /\ ok res = false
                    /\ e = Error "Couldn't load projects.json")
    \/ (exists res, f = Resolved res /\ ok res = true /\ body res = None
                    /\ e = SyntaxError)
    \/ (exists res elems p,
          f = Resolved res /\ ok res = true /\ body res = Some (JArr elems)
          /\ In p elems /\ normalizeProject p = Throw TypeError
          /\ e = TypeError).
Proof.
  split.
  - unfold loadProjects. destruct f as [|res]; cbn [bind].
    + intros [= <-]. now left.
    + destruct (ok res) eqn:Hok; cbn [negb].
      * destruct (body res) as [data|] eqn:Hbody; cbn [bind].
        -- intros H. apply bind_Throw in H.
           destruct H as [H | (ps & _ & H)]; [|discriminate].
           apply mapM_Throw in H. destruct H as (x & Hin & Hx).
           pose proof (normalizeProject_TypeError x e Hx) as ->.
           destruct data; try contradiction.
           right. right. right. now exists res, elems, x.
        -- intros [= <-]. right. right. left. now exists res.
      * intros [= <-]. right. left. now exists res.
  - intros [(-> & ->) | [(res & -> & Hok & ->) | [(res & -> & Hok & Hb & ->)
                       | (res & elems & p & -> & Hok & Hb & Hin & Hp & ->)]]];
      unfold loadProjects; cbn [bind]; rewrite ?Hok, ?Hb; cbn [negb bind];
      try reflexivity.
    now rewrite (mapM_normalize_Throw elems p TypeError Hin Hp).
Qed.

(** C5, as the code has it: the loader throws the [Error] with its
    message exactly when the fetch resolved with a response that is not
    [ok].  It fails as well, with the exception of the host, when the
    fetch is rejected (a [TypeError]), when the body of an [ok] response
    is not JSON (a [SyntaxError]), and when an element of the array
    cannot be normalised (a [TypeError]).  When the response is [ok] and
    its body parses to a value that is not an array, the loader returns
    the empty list. *)
Theorem loadProjects_failure (f : fetched) :
  ((exists m, loadProjects f = Throw (Error m))
   <-> (exists res, f = Resolved res /\ ok res = false))
  /\ (forall m, loadProjects f = Throw (Error m) -> m = "Couldn't load projects.json")
  /\ (f = Rejected -> loadProjects f = Throw TypeError)
  /\ (forall res, f = Resolved res -> ok res = true -> body res = None ->
      loadProjects f = Throw SyntaxError)
  /\ (forall res elems p e,
        f = Resolved res -> ok res = true -> body res = Some (JArr elems) ->
        In p elems -> normalizeProject p = Throw e ->
        loadProjects f = Throw TypeError)
  /\ (forall res j, f = Resolved res -> ok res = true -> body res = Some j ->
      (forall elems, j <> JArr elems) -> loadProjects f = Ok []).
Proof.
  split; [split|split; [|split; [|split; [|split]]]].
  - intros (m & H). apply loadProjects_throws_iff in H.
    destruct H as [(_ & H) | [(res & -> & Hok & _) | [(res & _ & _ & _ & H)
                 | (res & elems & p & _ & _ & _ & _ & _ & H)]]];
      try discriminate H. now exists res.
  - intros (res & -> & Hok). exists "Couldn't load projects.json".
    apply loadProjects_throws_iff. right. left. now exists res.
  - intros m H. apply loadProjects_throws_iff in H.
    destruct H as [(_ & H) | [(res & _ & _ & H) | [(res & _ & _ & _ & H)
                 | (res & elems & p & _ & _ & _ & _ & _ & H)]]];
      try discriminate H. now injection H.
  - now intros ->.
  - intros res -> Hok Hb. apply loadProjects_throws_iff. right. right. left.
    now exists res.
  - intros res elems p e -> Hok Hb Hin Hp. apply loadProjects_throws_iff.
    right. right. right. exists res, elems, p.
    rewrite (normalizeProject_TypeError p e Hp) in Hp. now repeat split.
  - intros res j -> Hok Hbody Hnot. unfold loadProjects. cbn [bind].
    rewrite Hok, Hbody. cbn [negb bind].
    destruct j; try reflexivity. now elim (Hnot elems).
Qed.

(** The loader's other failures are the host's exceptions: a rejected
    fetch, a body that is not JSON, and a [null] element of the array. *)
Lemma loadProjects_host_failures :
  loadProjects Rejected = Throw TypeError
  /\ loadProjects (Resolved {| ok := true; body := None |}) = Throw SyntaxError
  /\ loadProjects (Resolved {| ok := true; body := Some (JArr [JNull]) |})
     = Throw TypeError.
Proof. repeat split. Qed.

End LoaderFacts.

Lemma loadProjects_invariants_witness :
  loadProjects Sample.okResponse = Ok [Sample.project "A" ""]
  /\ Forall (fun r => title r <> "" /\ slug r <> ""
                      /\ ~ In "" (tags r) /\ category r <> "")
       [Sample.project "A" ""].
Proof.
  split; [reflexivity|].
  exact (proj1 (loadProjects_invariants Sample.okResponse [Sample.project "A" ""]
                  eq_refl)).
Defined.

Lemma loadProjects_failure_witness :
  loadProjects (E := Sample.engine) (Resolved {| ok := false; body := None |})
  = Throw (Error "Couldn't load projects.json")
  /\ loadProjects (E := Sample.engine)
       (Resolved {| ok := true; body := Some (JObj [("title", JStr "A")]) |}) = Ok [].
Proof.
  split; [reflexivity|].
  refine (proj2 (proj2 (proj2 (proj2 (proj2
            (loadProjects_failure (E := Sample.engine)
               (Resolved {| ok := true;
                            body := Some (JObj [("title", JStr "A")]) |}))))))
            _ _ eq_refl eq_refl eq_refl _).
  intros elems. discriminate.
Defined.

(** C5 as stated fails: the loader also fails when the response indicates
    success, on a body that is not JSON, and when there is no response at
    all, the fetch being rejected. *)
Lemma loadProjects_fails_without_bad_status :
  loadProjects (E := Sample.engine) (Resolved {| ok := true; body := None |})
  = Throw SyntaxError
  /\ loadProjects (E := Sample.engine) Rejected = Throw TypeError.
Proof. split; reflexivity. Qed.

(** ** The featured view *)

Module FeaturedFacts.

Lemma slice0_firstn {A : Type} (l : list A) (n : Z) :
  (0 <= n)%Z -> slice0 l n = firstn (Z.to_nat n) l.
Proof.
  intros Hn. unfold slice0.
  destruct (n <? 0)%Z eqn:Hneg; [apply Z.ltb_lt in Hneg; lia|].
  destruct (Z.le_ge_cases n (Z.of_nat (length l))) as [Hle | Hge].
  - now rewrite Z.min_l.
  - rewrite Z.min_r, Nat2Z.id by assumption.
    rewrite firstn_all, firstn_all2; [reflexivity | lia].
Qed.

(** C6: for a limit N that is a count (N >= 0), when some record is
    featured the featured view shows the featured records, in load order,
    cut to the first N; when none is, it shows the first N records of the
    list as loaded; without a limit, N is 6. *)
Theorem renderFeatured_selection (projects : list ProjectRecord) (N : Z) :
  (0 <= N)%Z ->
  ((exists p, In p projects /\ featured p = true) ->
   renderFeatured (Some N) (Ok projects)
   = firstn (Z.to_nat N) (filter featured projects))
  /\ ((forall p, In p projects -> featured p = false) ->
      renderFeatured (Some N) (Ok projects) = firstn (Z.to_nat N) projects)
  /\ renderFeatured None (Ok projects) = renderFeatured (Some 6%Z) (Ok projects).
Proof.
  intros HN. unfold renderFeatured. rewrite !slice0_firstn by lia.
  split; [|split; [|reflexivity]].
  - intros (p & Hin & Hp).
    destruct (firstn (Z.to_nat N) (filter featured projects)) as [|x r] eqn:Hf;
      [|reflexivity].
    assert (Hfp : In p (filter featured projects)) by (apply filter_In; auto).
    destruct (Z.to_nat N) as [|n]; [reflexivity|].
    destruct (filter featured projects); [contradiction | discriminate].
  - intros Hnone.
    assert (Hf : filter featured projects = []).
    { clear HN. induction projects as [|x r IH]; [reflexivity|].
      cbn [filter]. rewrite (Hnone x (or_introl eq_refl)).
      apply IH. intros p Hp. apply Hnone. now right. }
    rewrite Hf. now destruct (Z.to_nat N).
Qed.

Lemma renderFeatured_selection_witness :
  renderFeatured (Some 1%Z)
    (Ok [Sample.project "a" "";
         {| title := "b"; slug := "b"; description := ""; thumbnail := "";
            tags := []; category := "Other"; featured := true; date := "";
            link := "" |};
         {| title := "c"; slug := "c"; description := ""; thumbnail := "";
            tags := []; category := "Other"; featured := true; date := "";
            link := "" |}])
  = [{| title := "b"; slug := "b"; description := ""; thumbnail := "";
        tags := []; category := "Other"; featured := true; date := "";
        link := "" |}]
  /\ renderFeatured (Some 1%Z) (Ok [Sample.project "a" ""; Sample.project "b" ""])
     = [Sample.project "a" ""].
Proof.
  split.
  - refine (proj1 (renderFeatured_selection _ 1%Z _) _); [lia|].
    eexists. split; [right; left; reflexivity | reflexivity].
  - refine (proj1 (proj2 (renderFeatured_selection _ 1%Z _)) _); [lia|].
    intros p [<- | [<- | []]]; reflexivity.
Defined.

(** With a negative limit [slice] counts from the end, and the fallback
    can show a record that is not featured although one is. *)
Lemma renderFeatured_negative_limit :
  renderFeatured (Some (-1)%Z)
    (Ok [Sample.project "a" "";
         {| title := "b"; slug := "b"; description := ""; thumbnail := "";
            tags := []; category := "Other"; featured := true; date := "";
            link := "" |}])
  = [Sample.project "a" ""].
Proof. reflexivity. Qed.

End FeaturedFacts.

(** ** Filtering *)

Module FilterFacts.
Import Str StrFacts.

Lemma normalizeText_eq (s : string) : normalizeText s = toLowerCase s.
Proof. now destruct s. Qed.

Lemma includesTag_spec (ts : list string) (tag : string) :
  includesTag ts tag = true <-> In tag ts.
Proof.
  unfold includesTag. rewrite existsb_exists. split.
  - intros (x & Hin & Heq). apply String.eqb_eq in Heq. now subst.
  - intros Hin. exists tag. split; [assumption | apply String.eqb_refl].
Qed.

Lemma catOk_spec (cat : string) (p : ProjectRecord) :
  catOk cat p = true <-> cat = "All" \/ category p = cat.
Proof. unfold catOk. now rewrite orb_true_iff, !String.eqb_eq. Qed.

Lemma tagOk_spec (tag : string) (p : ProjectRecord) :
  tagOk tag p = true <-> tag = "All" \/ In tag (tags p).
Proof. unfold tagOk. now rewrite orb_true_iff, String.eqb_eq, includesTag_spec. Qed.

Lemma matches_spec (p : ProjectRecord) (query : string) :
  matches p query = true <->
  trim (toLowerCase query) = ""
  \/ exists pre post,
       join " " (map toLowerCase (title p :: description p :: category p :: tags p))
       = pre ++ trim (toLowerCase query) ++ post.
Proof.
  unfold matches. rewrite normalizeText_eq.
  replace (map normalizeText ([title p; description p; category p] ++ tags p)%list)
    with (map toLowerCase (title p :: description p :: category p :: tags p))
    by (apply map_ext; intros s; symmetry; apply normalizeText_eq).
  destruct (nonEmpty (trim (toLowerCase query))) eqn:Hq; cbn [negb].
  - rewrite includes_spec. apply nonEmpty_true in Hq. tauto.
  - apply nonEmpty_false in Hq. tauto.
Qed.

Lemma filter_filter {A : Type} (f g : A -> bool) (l : list A) :
  filter f (filter g l) = filter (fun x => g x && f x) l.
Proof.
  induction l as [|x r IH]; [reflexivity|].
  cbn [filter]. destruct (g x); cbn [filter andb]; now rewrite IH.
Qed.

(** C2, as the code has it: a record is visible exactly when it is in the
    list, the category selection is "All" or its category, the tag
    selection is "All" or one of its tags, and the query, lower-cased and
    trimmed, is empty or a substring of the lower-cased title,
    description, category and tags joined by single spaces; the visible
    list is the intersection of the three criteria, taken in any order. *)
Theorem applyFilters_visible (allProjects : list ProjectRecord) (C T Q : string) :
  (forall p,
     In p (applyFilters (Some Q) (Some C) T allProjects) <->
     In p allProjects
     /\ (C = "All" \/ category p = C)
     /\ (T = "All" \/ In T (tags p))
     /\ (trim (toLowerCase Q) = ""
         \/ exists pre post,
              join " " (map toLowerCase
                            (title p :: description p :: category p :: tags p))
              = pre ++ trim (toLowerCase Q) ++ post))
  /\ applyFilters (Some Q) (Some C) T allProjects
     = filter (fun p => matches p Q) (filter (tagOk T) (filter (catOk C) allProjects))
  /\ applyFilters (Some Q) (Some C) T allProjects
     = filter (catOk C) (filter (tagOk T) (filter (fun p => matches p Q) allProjects))
  /\ applyFilters (Some Q) (Some C) T allProjects
     = filter (tagOk T) (filter (fun p => matches p Q) (filter (catOk C) allProjects)).
Proof.
  unfold applyFilters. split; [|split; [|split]].
  - intros p.
    rewrite filter_In, !andb_true_iff, catOk_spec, tagOk_spec, matches_spec. tauto.
  - rewrite !filter_filter. apply filter_ext. intros p.
    destruct (catOk C p), (tagOk T p), (matches p Q); reflexivity.
  - rewrite !filter_filter. apply filter_ext. intros p.
    destruct (catOk C p), (tagOk T p), (matches p Q); reflexivity.
  - rewrite !filter_filter. apply filter_ext. intros p.
    destruct (catOk C p), (tagOk T p), (matches p Q); reflexivity.
Qed.

(** C2 as stated fails.  The query is trimmed before it is looked for, so
    " a" finds the title "a" although it is no substring of the
    concatenation; and the fields are joined by spaces, so "ab" does not
    find the title "a" followed by the description "b". *)
Lemma applyFilters_not_plain_substring :
  (applyFilters (Some " a") (Some "All") "All" [Sample.project "a" ""]
   = [Sample.project "a" ""]
   /\ specVisible "All" "All" " a" [Sample.project "a" ""] = [])
  /\ (applyFilters (Some "ab") (Some "All") "All"
        [{| title := "a"; slug := "a"; description := "b"; thumbnail := "";
            tags := []; category := "Other"; featured := false; date := "";
            link := "" |}] = []
      /\ specVisible "All" "All" "ab"
           [{| title := "a"; slug := "a"; description := "b"; thumbnail := "";
               tags := []; category := "Other"; featured := false; date := "";
               link := "" |}]
         = [{| title := "a"; slug := "a"; description := "b"; thumbnail := "";
               tags := []; category := "Other"; featured := false; date := "";
               link := "" |}]).
Proof. repeat split. Qed.

(** C10: a query of white space only is treated as the empty query: the
    query predicate is true for every record, so the filter shows what it
    shows for the empty query. *)
Theorem matches_blank_query (p : ProjectRecord) (query : string) :
  (forall c, In c (list_ascii_of_string query) -> isWhiteSpace c = true) ->
  matches p query = true
  /\ forall cat tag allProjects,
       applyFilters (Some query) cat tag allProjects
       = applyFilters (Some "") cat tag allProjects.
Proof.
  intros Hblank.
  assert (Hall : forall r, matches r query = true).
  { intros r. apply matches_spec. left. unfold trim.
    rewrite trimStart_blank; [reflexivity|].
    intros c Hc. apply toLowerCase_chars in Hc. destruct Hc as (d & Hd & ->).
    rewrite lowerChar_isWhiteSpace. now apply Hblank. }
  split; [apply Hall|].
  intros cat tag allProjects. unfold applyFilters. apply filter_ext.
  intros r. now rewrite Hall.
Qed.

Lemma matches_blank_query_witness :
  matches (Sample.project "a" "") (String (ascii_of_nat 9) "  ") = true.
Proof.
  refine (proj1 (matches_blank_query (Sample.project "a" "")
                   (String (ascii_of_nat 9) "  ") _)).
  intros c [<- | [<- | [<- | []]]]; reflexivity.
Defined.

End FilterFacts.

(** ** Sorting *)

Section SortByFacts.
Variable A : Type.
Variable cmp : A -> A -> Z.
Hypothesis Hcmp : ConsistentComparator cmp.

Lemma cmp_gt_le (a b : A) : (0 < cmp a b)%Z -> mayPrecede cmp b a.
Proof.
  intros H. unfold mayPrecede. pose proof (cmp_antisym cmp Hcmp a b) as Hs.
  rewrite (Z.sgn_pos _ H) in Hs.
  destruct (Z.sgn_spec (cmp b a)) as [(? & ?) | [(? & ?) | (? & ?)]]; lia.
Qed.

Lemma cmp_eq_sym (a b : A) : cmp a b = 0%Z -> cmp b a = 0%Z.
Proof.
  intros H. pose proof (cmp_antisym cmp Hcmp a b) as Hs.
  rewrite H in Hs. cbn in Hs.
  destruct (Z.sgn_spec (cmp b a)) as [(? & ?) | [(? & ?) | (? & ?)]]; lia.
Qed.

Lemma insertBy_perm (x : A) (l : list A) : Permutation (x :: l) (insertBy cmp x l).
Proof.
  induction l as [|y r IH]; cbn [insertBy]; [reflexivity|].
  destruct (cmp x y <=? 0)%Z; [reflexivity|].
  rewrite perm_swap. now constructor.
Qed.

Lemma sortBy_perm (l : list A) : Permutation l (sortBy cmp l).
Proof.
  induction l as [|x r IH]; cbn [sortBy]; [reflexivity|].
  rewrite <- insertBy_perm. now constructor.
Qed.

Lemma insertBy_sorted (x : A) (l : list A) :
  StronglySorted (mayPrecede cmp) l -> StronglySorted (mayPrecede cmp) (insertBy cmp x l).
Proof.
  induction 1 as [|y r Hr IH Hy]; cbn [insertBy].
  - repeat constructor.
  - destruct (cmp x y <=? 0)%Z eqn:Hxy.
    + apply Z.leb_le in Hxy. constructor; [now constructor|].
      constructor; [exact Hxy|].
      eapply Forall_impl; [|exact Hy].
      intros z Hz. exact (cmp_trans cmp Hcmp x y z Hxy Hz).
    + apply Z.leb_gt in Hxy. constructor; [exact IH|].
      apply (Permutation_Forall (insertBy_perm x r)).
      constructor; [now apply cmp_gt_le | exact Hy].
Qed.

Lemma sortBy_sorted (l : list A) : StronglySorted (mayPrecede cmp) (sortBy cmp l).
Proof.
  induction l as [|x r IH]; cbn [sortBy]; [constructor | now apply insertBy_sorted].
Qed.

(** The elements that compare equal to [x] keep their order. *)
Lemma insertBy_stable (x a : A) (l : list A) :
  filter (fun y => (cmp x y =? 0)%Z) (insertBy cmp a l)
  = filter (fun y => (cmp x y =? 0)%Z) (a :: l).
Proof.
  induction l as [|y r IH]; cbn [insertBy]; [reflexivity|].
  destruct (cmp a y <=? 0)%Z eqn:Hay; [reflexivity|].
  apply Z.leb_gt in Hay. cbn [filter] in IH |- *. rewrite IH.
  destruct (cmp x a =? 0)%Z eqn:Hxa; [|reflexivity].
  destruct (cmp x y =? 0)%Z eqn:Hxy; [|reflexivity].
  apply Z.eqb_eq in Hxa, Hxy. apply cmp_eq_sym in Hxa.
  assert (Hle : (cmp a y <= 0)%Z) by (apply (cmp_trans cmp Hcmp a x y); lia).
  lia.
Qed.

Lemma sortBy_stable (x : A) (l : list A) :
  filter (fun y => (cmp x y =? 0)%Z) (sortBy cmp l)
  = filter (fun y => (cmp x y =? 0)%Z) l.
Proof.
  induction l as [|a r IH]; cbn [sortBy]; [reflexivity|].
  rewrite insertBy_stable. cbn [filter]. now rewrite IH.
Qed.

Lemma StronglySorted_nth (R : A -> A -> Prop) (l : list A) :
  StronglySorted R l ->
  forall i j a b, (i < j)%nat -> nth_error l i = Some a -> nth_error l j = Some b ->
                  R a b.
Proof.
  induction 1 as [|x r Hr IH Hx]; intros i j a b Hij Hi Hj.
  - now destruct i.
  - destruct j as [|j]; [lia|]. cbn in Hj. destruct i as [|i].
    + cbn in Hi. injection Hi as <-.
      rewrite Forall_forall in Hx. apply Hx. eapply nth_error_In; eassumption.
    + cbn in Hi. apply (IH i j); [lia | assumption | assumption].
Qed.

End SortByFacts.

Section SortProjectsFacts.
Context {E : Engine}.
Import Str StrFacts.

Lemma compareProjects_consistent :
  ConsistentComparator localeCompare -> ConsistentComparator compareProjects.
Proof.
  intros [Hanti Htrans]. split.
  - intros a b. unfold compareProjects.
    destruct (nonEmpty (date a)), (nonEmpty (date b)); cbn [andb];
      [apply Hanti | reflexivity | reflexivity | apply Hanti].
  - intros a b c. unfold compareProjects.
    destruct (nonEmpty (date a)), (nonEmpty (date b)), (nonEmpty (date c));
      cbn [andb]; intros Hab Hbc; try lia.
    + exact (Htrans _ _ _ Hbc Hab).
    + exact (Htrans _ _ _ Hab Hbc).
Qed.

(** What [compareProjects a b <= 0] says about two records. *)
Lemma compareProjects_le (a b : ProjectRecord) :
  (compareProjects a b <= 0)%Z ->
  (date a <> "" -> date b <> "" -> (localeCompare (date b) (date a) <= 0)%Z)
  /\ (date a = "" -> date b = "")
  /\ (date a = "" -> date b = "" -> (localeCompare (title a) (title b) <= 0)%Z).
Proof.
  unfold compareProjects.
  destruct (nonEmpty (date a)) eqn:Ha, (nonEmpty (date b)) eqn:Hb; cbn [andb];
    intros H;
    try apply nonEmpty_true in Ha; try apply nonEmpty_false in Ha;
    try apply nonEmpty_true in Hb; try apply nonEmpty_false in Hb;
    repeat split; intros; try congruence; try lia.
Qed.

(** C1, as the code has it: the sort rearranges the loaded records so that
    of any two, the earlier one has the greater or equal date under
    [localeCompare] when both have a date (date descending), no record
    without a date comes before one with a date, and two records without a
    date are in ascending order of title under [localeCompare]; records
    that compare equal, records with equal dates among them, keep their
    load order. *)
Theorem sortProjects_order (projects : list ProjectRecord) :
  ConsistentComparator localeCompare ->
  Permutation projects (sortProjects projects)
  /\ (forall i j a b,
        (i < j)%nat ->
        nth_error (sortProjects projects) i = Some a ->
        nth_error (sortProjects projects) j = Some b ->
        (date a <> "" -> date b <> "" -> (localeCompare (date b) (date a) <= 0)%Z)
        /\ (date a = "" -> date b = "")
        /\ (date a = "" -> date b = "" ->
            (localeCompare (title a) (title b) <= 0)%Z))
  /\ (forall x,
        filter (fun y => (compareProjects x y =? 0)%Z) (sortProjects projects)
        = filter (fun y => (compareProjects x y =? 0)%Z) projects).
Proof.
  intros Hlc. pose proof (compareProjects_consistent Hlc) as Hcmp.
  unfold sortProjects. split; [apply sortBy_perm | split].
  - intros i j a b Hij Hi Hj. apply compareProjects_le.
    exact (StronglySorted_nth _ _ _
             (sortBy_sorted _ compareProjects Hcmp projects) i j a b Hij Hi Hj).
  - intros x. now apply sortBy_stable.
Qed.

(** Two records with the same date stay in load order whatever their
    titles and whatever the engine: [localeCompare] of a string with
    itself is zero. *)
Lemma sortProjects_same_date (a b : ProjectRecord) :
  ConsistentComparator localeCompare ->
  date a = date b -> date a <> "" ->
  sortProjects [a; b] = [a; b].
Proof.
  intros [Hanti _] Hd Ha. unfold sortProjects. cbn [sortBy insertBy].
  unfold compareProjects. rewrite <- Hd.
  apply nonEmpty_true in Ha. rewrite Ha. cbn [andb].
  specialize (Hanti (date a) (date a)).
  destruct (Z.sgn_spec (localeCompare (date a) (date a)))
    as [(? & ?) | [(? & ?) | (? & ?)]]; try lia.
  destruct (localeCompare (date a) (date a) <=? 0)%Z eqn:Hle; [reflexivity|].
  apply Z.leb_gt in Hle. lia.
Qed.

End SortProjectsFacts.

Module SampleFacts.

Lemma ascii_compare_N (a b : ascii) :
  Ascii.compare a b = N.compare (N_of_ascii a) (N_of_ascii b).
Proof. reflexivity. Qed.

Lemma string_compare_trans (a b c : string) :
  String.compare a b <> Gt -> String.compare b c <> Gt -> String.compare a c <> Gt.
Proof.
  revert b c. induction a as [|x a IH]; intros [|y b] [|z c]; cbn;
    try congruence.
  rewrite !ascii_compare_N.
  destruct (N.compare_spec (N_of_ascii x) (N_of_ascii y)) as [Hxy | Hxy | Hxy];
    destruct (N.compare_spec (N_of_ascii y) (N_of_ascii z)) as [Hyz | Hyz | Hyz];
    destruct (N.compare_spec (N_of_ascii x) (N_of_ascii z)) as [Hxz | Hxz | Hxz];
    try congruence; try lia.
  apply IH.
Qed.

Lemma compareCodeUnits_consistent : ConsistentComparator Sample.compareCodeUnits.
Proof.
  split.
  - intros a b. unfold Sample.compareCodeUnits.
    rewrite (String.compare_antisym a b). now destruct (String.compare b a).
  - intros a b c. unfold Sample.compareCodeUnits.
    pose proof (string_compare_trans a b c) as H.
    destruct (String.compare a b), (String.compare b c), (String.compare a c);
      intros; try lia; exfalso; apply H; congruence.
Qed.

(** The order of dates is the engine's: with a [localeCompare] that
    ignores case the date "B" sorts before the date "a", although "B"
    is the smaller string in code-unit order. *)
Lemma sortProjects_follows_localeCompare :
  sortProjects (E := Sample.caseBlindEngine)
    [Sample.project "x" "a"; Sample.project "y" "B"]
  = [Sample.project "y" "B"; Sample.project "x" "a"]
  /\ (Sample.compareCodeUnits "B" "a" < 0)%Z.
Proof. split; reflexivity. Qed.

End SampleFacts.

Lemma sortProjects_order_witness :
  sortProjects (E := Sample.engine)
    [Sample.project "A" "2024-01-01"; Sample.project "C" "";
     Sample.project "B" "2024-02-01"]
  = [Sample.project "B" "2024-02-01"; Sample.project "A" "2024-01-01";
     Sample.project "C" ""]
  /\ Permutation
       [Sample.project "A" "2024-01-01"; Sample.project "C" "";
        Sample.project "B" "2024-02-01"]
       (sortProjects (E := Sample.engine)
          [Sample.project "A" "2024-01-01"; Sample.project "C" "";
           Sample.project "B" "2024-02-01"]).
Proof.
  split; [reflexivity|].
  exact (proj1 (sortProjects_order (E := Sample.engine) _
                  SampleFacts.compareCodeUnits_consistent)).
Defined.

(** C1 as stated fails: two records with the same date are not ordered by
    title; they stay in load order. *)
Lemma sortProjects_equal_dates_keep_order :
  sortProjects (E := Sample.engine)
    [Sample.project "b" "2024-01-01"; Sample.project "a" "2024-01-01"]
  = [Sample.project "b" "2024-01-01"; Sample.project "a" "2024-01-01"]
  /\ (localeCompare (Engine := Sample.engine) "a" "b" < 0)%Z.
Proof. split; reflexivity. Qed.

(** ** The category and tag controls *)

Section ControlFacts.
Context {E : Engine}.
Import Str StrFacts FilterFacts.

Lemma existsb_eqb_In (x : string) (l : list string) :
  existsb (String.eqb x) l = true <-> In x l.
Proof.
  rewrite existsb_exists. split.
  - intros (y & Hin & Heq). apply String.eqb_eq in Heq. now subst.
  - intros Hin. exists x. split; [assumption | apply String.eqb_refl].
Qed.

Lemma setValues_In (seen arr : list string) (x : string) :
  In x (setValues seen arr) <-> In x arr /\ ~ In x seen.
Proof.
  revert seen. induction arr as [|y r IH]; intros seen; cbn [setValues].
  - cbn. tauto.
  - destruct (existsb (String.eqb y) seen) eqn:Hy.
    + apply existsb_eqb_In in Hy. rewrite IH. cbn [In]. split.
      * tauto.
      * intros ([<- | Hin] & Hns); tauto.
    + assert (Hny : ~ In y seen).
      { intros Hin. apply existsb_eqb_In in Hin. congruence. }
      cbn [In]. rewrite IH. cbn [In].
      destruct (string_dec y x) as [<- | Hne]; tauto.
Qed.

Lemma setValues_NoDup (seen arr : list string) : NoDup (setValues seen arr).
Proof.
  revert seen. induction arr as [|y r IH]; intros seen; cbn [setValues].
  - constructor.
  - destruct (existsb (String.eqb y) seen); [apply IH|].
    constructor; [|apply IH].
    rewrite setValues_In. cbn [In]. tauto.
Qed.

Lemma uniqueSorted_In (arr : list string) (x : string) :
  In x (uniqueSorted arr) <-> In x arr /\ x <> "".
Proof.
  unfold uniqueSorted.
  pose proof (sortBy_perm _ localeCompare (setValues [] (filter nonEmpty arr))) as Hp.
  split.
  - intros Hin. apply (Permutation_in _ (Permutation_sym Hp)) in Hin.
    apply setValues_In in Hin. destruct Hin as (Hin & _).
    apply filter_In in Hin. now rewrite nonEmpty_true in Hin.
  - intros (Hin & Hne). apply (Permutation_in _ Hp), setValues_In.
    split; [|tauto]. apply filter_In. now rewrite nonEmpty_true.
Qed.

(** X2: [uniqueSorted]: the result holds every non-empty string of the input
    and nothing else, each once, in ascending order of [localeCompare]. *)
Theorem uniqueSorted_spec (arr : list string) :
  ConsistentComparator localeCompare ->
  NoDup (uniqueSorted arr)
  /\ (forall x, In x (uniqueSorted arr) <-> In x arr /\ x <> "")
  /\ StronglySorted (mayPrecede localeCompare) (uniqueSorted arr).
Proof.
  intros Hlc. split; [|split].
  - unfold uniqueSorted.
    apply (Permutation_NoDup (sortBy_perm _ localeCompare _)), setValues_NoDup.
  - apply uniqueSorted_In.
  - unfold uniqueSorted. now apply sortBy_sorted.
Qed.

Lemma matches_empty_query (p : ProjectRecord) : matches p "" = true.
Proof. reflexivity. Qed.

(** X3: The category options fit the list: every option is the category of a
    record that choosing the option shows, and the category of every
    record is an option (it is never empty after normalisation). *)
Theorem categoriesOf_fit (allProjects : list ProjectRecord) :
  (forall c, In c (categoriesOf allProjects) ->
     exists p, In p allProjects /\ category p = c
               /\ In p (applyFilters (Some "") (Some c) "All" allProjects))
  /\ (forall p, In p allProjects -> category p <> "" ->
        In (category p) (categoriesOf allProjects)).
Proof.
  unfold categoriesOf. split.
  - intros c Hc. apply uniqueSorted_In in Hc. destruct Hc as (Hc & _).
    apply in_map_iff in Hc. destruct Hc as (p & <- & Hp).
    exists p. repeat split; [assumption|].
    unfold applyFilters. apply filter_In. split; [assumption|].
    rewrite matches_empty_query, !andb_true_iff, catOk_spec, tagOk_spec. tauto.
  - intros p Hp Hne. apply uniqueSorted_In. split; [|assumption].
    now apply in_map.
Qed.

(** X4: The tag buttons fit the list: every tag offered is carried by a record
    that clicking the button shows, and every non-empty tag of every
    record is offered. *)
Theorem tagsOf_fit (allProjects : list ProjectRecord) :
  (forall t, In t (tagsOf allProjects) ->
     exists p, In p allProjects /\ In t (tags p)
               /\ In p (applyFilters (Some "") (Some "All") t allProjects))
  /\ (forall p t, In p allProjects -> In t (tags p) -> t <> "" ->
        In t (tagsOf allProjects)).
Proof.
  unfold tagsOf. split.
  - intros t Ht. apply uniqueSorted_In in Ht. destruct Ht as (Ht & _).
    apply in_flat_map in Ht. destruct Ht as (p & Hp & Ht).
    exists p. repeat split; try assumption.
    unfold applyFilters. apply filter_In. split; [assumption|].
    rewrite matches_empty_query, !andb_true_iff, catOk_spec, tagOk_spec. tauto.
  - intros p t Hp Ht Hne. apply uniqueSorted_In. split; [|assumption].
    apply in_flat_map. now exists p.
Qed.

End ControlFacts.

Lemma uniqueSorted_spec_witness :
  uniqueSorted (E := Sample.engine) ["b"; ""; "a"; "b"] = ["a"; "b"]
  /\ NoDup (uniqueSorted (E := Sample.engine) ["b"; ""; "a"; "b"]).
Proof.
  split; [reflexivity|].
  exact (proj1 (uniqueSorted_spec (E := Sample.engine) ["b"; ""; "a"; "b"]
                  SampleFacts.compareCodeUnits_consistent)).
Defined.

(** ** Links *)

Module LinkFacts.
Import Str StrFacts.

Lemma chars_append (a b : string) :
  list_ascii_of_string (a ++ b) = (list_ascii_of_string a ++ list_ascii_of_string b)%list.
Proof. induction a as [|c a IH]; cbn; [reflexivity | now rewrite IH]. Qed.

Lemma append_assoc (a b c : string) : (a ++ b) ++ c = a ++ (b ++ c).
Proof. induction a as [|x a IH]; cbn; [reflexivity | now rewrite IH]. Qed.

Lemma append_cancel_l (a b c : string) : a ++ b = a ++ c -> b = c.
Proof. induction a as [|x a IH]; cbn; [auto | intros [= H]; auto]. Qed.

Lemma append_cancel_char (a b : string) (c : ascii) :
  a ++ String c "" = b ++ String c "" -> a = b.
Proof.
  revert b. induction a as [|x a IH]; intros [|y b]; cbn; intros H.
  - reflexivity.
  - injection H as _ H. now destruct b.
  - injection H as _ H. now destruct a.
  - injection H as -> H. f_equal. now apply IH.
Qed.

Lemma encodeUnit_chars (c : ascii) :
  forallb (fun d => isUnreserved d || Ascii.eqb d "%")
          (list_ascii_of_string (encodeUnit c)) = true.
Proof. destruct c as [[] [] [] [] [] [] [] []]; reflexivity. Qed.

Lemma decodeEscapes_unit (c : ascii) (rest : string) :
  decodeEscapes (encodeUnit c ++ rest) = String c (decodeEscapes rest).
Proof. destruct c as [[] [] [] [] [] [] [] []]; reflexivity. Qed.

Lemma decodeEscapes_encode (s : string) : decodeEscapes (encodeURIComponent s) = s.
Proof.
  induction s as [|c r IH]; [reflexivity|].
  cbn [encodeURIComponent]. now rewrite decodeEscapes_unit, IH.
Qed.

Lemma encodeURIComponent_injective (s t : string) :
  encodeURIComponent s = encodeURIComponent t -> s = t.
Proof.
  intros Heq. rewrite <- (decodeEscapes_encode s), Heq. apply decodeEscapes_encode.
Qed.

Lemma encodeURIComponent_chars (s : string) (c : ascii) :
  In c (list_ascii_of_string (encodeURIComponent s)) ->
  isUnreserved c = true \/ c = "%"%char.
Proof.
  induction s as [|d r IH]; cbn [encodeURIComponent]; [contradiction|].
  rewrite chars_append, in_app_iff. intros [Hc | Hc]; [|now apply IH].
  pose proof (encodeUnit_chars d) as Hd. rewrite forallb_forall in Hd.
  specialize (Hd c Hc). apply orb_true_iff in Hd.
  destruct Hd as [Hd | Hd]; [now left | right; now apply Ascii.eqb_eq].
Qed.

Lemma encodeURIComponent_no_separator (s : string) (c : ascii) :
  In c (list_ascii_of_string (encodeURIComponent s)) ->
  c <> "/"%char /\ c <> "?"%char /\ c <> "#"%char.
Proof.
  intros Hc. destruct (encodeURIComponent_chars s c Hc) as [Hu | ->].
  - repeat split; intros ->; discriminate Hu.
  - repeat split; discriminate.
Qed.

(** [encodeURIComponent] loses nothing and escapes what could end a path
    segment: different strings have different encodings, and an encoding
    consists of unreserved characters and percent signs only, so it holds
    no solidus, question mark, number sign or white space. *)
Theorem encodeURIComponent_faithful (s : string) :
  (forall t, encodeURIComponent s = encodeURIComponent t -> s = t)
  /\ (forall c, In c (list_ascii_of_string (encodeURIComponent s)) ->
        isUnreserved c = true \/ c = "%"%char)
  /\ (forall c, In c (list_ascii_of_string (encodeURIComponent s)) ->
        c <> "/"%char /\ c <> "?"%char /\ c <> "#"%char /\ isWhiteSpace c = false).
Proof.
  assert (Hchars : forall c, In c (list_ascii_of_string (encodeURIComponent s)) ->
                     isUnreserved c = true \/ c = "%"%char).
  { induction s as [|d r IH]; cbn [encodeURIComponent]; [contradiction|].
    intros c. rewrite chars_append, in_app_iff. intros [Hc | Hc]; [|now apply IH].
    pose proof (encodeUnit_chars d) as Hd. rewrite forallb_forall in Hd.
    specialize (Hd c Hc). apply orb_true_iff in Hd.
    destruct Hd as [Hd | Hd]; [now left | right; now apply Ascii.eqb_eq]. }
  split; [|split].
  - intros t. apply encodeURIComponent_injective.
  - exact Hchars.
  - intros c Hc. destruct (Hchars c Hc) as [Hu | ->].
    + repeat split; try (intros ->; discriminate Hu).
      destruct c as [[] [] [] [] [] [] [] []]; try reflexivity; discriminate Hu.
    + repeat split; discriminate.
Qed.

(** *** On all code units *)

Lemma hexDigit_unreserved (n : nat) : isUnreserved (hexDigit n) = true.
Proof.
  do 16 (destruct n as [|n]; [reflexivity|]).
  unfold hexDigit. cbn [list_ascii_of_string nth]. now destruct n.
Qed.

Lemma percentEscape_chars (octet : nat) (c : ascii) :
  In c (list_ascii_of_string (percentEscape octet)) ->
  isUnreserved c = true \/ c = "%"%char.
Proof.
  unfold percentEscape. cbn [list_ascii_of_string In].
  intros [<- | [<- | [<- | []]]]; [now right | left | left];
    apply hexDigit_unreserved.
Qed.

Lemma escapeOctets_chars (octets : list N) (c : ascii) :
  In c (list_ascii_of_string (escapeOctets octets)) ->
  isUnreserved c = true \/ c = "%"%char.
Proof.
  unfold escapeOctets.
  induction octets as [|o r IH]; cbn [map String.concat]; [contradiction|].
  destruct (map (fun o => percentEscape (N.to_nat o)) r) as [|x xs] eqn:Hr.
  - apply percentEscape_chars.
  - rewrite chars_append, in_app_iff. cbn [append].
    intros [Hc | Hc]; [now apply (percentEscape_chars (N.to_nat o)) | now apply IH].
Qed.

Lemma encodeURIComponentUnits_URIError (units : list N) (e : exn) :
  encodeURIComponentUnits units = Throw e -> e = URIError.
Proof.
  remember (length units) as n eqn:Hn. revert units Hn e.
  induction n as [n IH] using (well_founded_induction Wf_nat.lt_wf).
  intros [|u r] Hn e; cbn [encodeURIComponentUnits]; [discriminate|].
  cbn [length] in Hn.
  destruct (isUnreservedUnit u).
  - intros H. apply bind_Throw in H. destruct H as [H | (x & _ & H)]; [|discriminate].
    apply (IH (length r)) with (units := r); [lia | reflexivity | exact H].
  - destruct (isLeadingSurrogate u).
    + destruct r as [|v r']; [now intros [= <-]|].
      destruct (isTrailingSurrogate v); [|now intros [= <-]].
      intros H. apply bind_Throw in H. destruct H as [H | (x & _ & H)]; [|discriminate].
      cbn [length] in Hn.
      apply (IH (length r')) with (units := r'); [lia | reflexivity | exact H].
    + destruct (isTrailingSurrogate u); [now intros [= <-]|].
      intros H. apply bind_Throw in H. destruct H as [H | (x & _ & H)]; [|discriminate].
      apply (IH (length r)) with (units := r); [lia | reflexivity | exact H].
Qed.

Lemma isUnreservedUnit_no_surrogate (u : N) :
  isUnreservedUnit u = true ->
  isLeadingSurrogate u = false /\ isTrailingSurrogate u = false.
Proof.
  unfold isUnreservedUnit, isLeadingSurrogate, isTrailingSurrogate.
  intros H. apply andb_true_iff in H. destruct H as (H & _).
  apply N.ltb_lt in H.
  split; apply andb_false_iff; left; apply N.leb_gt; lia.
Qed.

(** [encodeURIComponent] returns exactly on the well-formed strings. *)
Lemma encodeURIComponentUnits_defined (units : list N) :
  isWellFormed units = true <-> exists segment, encodeURIComponentUnits units = Ok segment.
Proof.
  remember (length units) as n eqn:Hn. revert units Hn.
  induction n as [n IH] using (well_founded_induction Wf_nat.lt_wf).
  intros [|u r] Hn; cbn [encodeURIComponentUnits isWellFormed].
  - split; [now exists "" | reflexivity].
  - cbn [length] in Hn.
    assert (Hr : isWellFormed r = true
                 <-> exists segment, encodeURIComponentUnits r = Ok segment)
      by (apply (IH (length r)); [lia | reflexivity]).
    destruct (isUnreservedUnit u) eqn:Hu.
    + destruct (isUnreservedUnit_no_surrogate u Hu) as (-> & ->). cbn [negb andb].
      rewrite Hr. split.
      * intros (x & ->). cbn [bind]. eauto.
      * intros (x & H). destruct (encodeURIComponentUnits r); [eauto | discriminate].
    + destruct (isLeadingSurrogate u).
      * destruct r as [|v r']; [split; [discriminate | intros (x & H); discriminate]|].
        cbn [length] in Hn.
        assert (Hr' : isWellFormed r' = true
                      <-> exists segment, encodeURIComponentUnits r' = Ok segment)
          by (apply (IH (length r')); [lia | reflexivity]).
        destruct (isTrailingSurrogate v); cbn [andb];
          [|split; [discriminate | intros (x & H); discriminate]].
        rewrite Hr'. split.
        -- intros (x & ->). cbn [bind]. eauto.
        -- intros (x & H). destruct (encodeURIComponentUnits r'); [eauto | discriminate].
      * destruct (isTrailingSurrogate u); cbn [negb andb];
          [split; [discriminate | intros (x & H); discriminate]|].
        rewrite Hr. split.
        -- intros (x & ->). cbn [bind]. eauto.
        -- intros (x & H). destruct (encodeURIComponentUnits r); [eauto | discriminate].
Qed.

Lemma encodeURIComponentUnits_ill_formed (units : list N) :
  isWellFormed units = false -> encodeURIComponentUnits units = Throw URIError.
Proof.
  intros Hw. destruct (encodeURIComponentUnits units) as [segment|e] eqn:He.
  - assert (isWellFormed units = true)
      by (apply encodeURIComponentUnits_defined; eauto).
    congruence.
  - now rewrite (encodeURIComponentUnits_URIError units e He).
Qed.

Lemma encodeURIComponentUnits_chars (units : list N) (segment : string) (c : ascii) :
  encodeURIComponentUnits units = Ok segment ->
  In c (list_ascii_of_string segment) ->
  isUnreserved c = true \/ c = "%"%char.
Proof.
  remember (length units) as n eqn:Hn. revert units Hn segment.
  induction n as [n IH] using (well_founded_induction Wf_nat.lt_wf).
  intros [|u r] Hn segment; cbn [encodeURIComponentUnits].
  - intros [= <-]. contradiction.
  - cbn [length] in Hn. destruct (isUnreservedUnit u) eqn:Hu.
    + intros H. inv_bind_as H rest Hrest. injection H as <-.
      cbn [list_ascii_of_string In]. intros [<- | Hc].
      * left. unfold isUnreservedUnit in Hu. now apply andb_true_iff in Hu.
      * apply (IH (length r)) with (units := r) (segment := rest); auto; lia.
    + destruct (isLeadingSurrogate u).
      * destruct r as [|v r']; [discriminate|]. cbn [length] in Hn.
        destruct (isTrailingSurrogate v); [|discriminate].
        intros H. inv_bind_as H rest Hrest. injection H as <-.
        rewrite chars_append, in_app_iff. intros [Hc | Hc].
        -- now apply (escapeOctets_chars _ c Hc).
        -- apply (IH (length r')) with (units := r') (segment := rest); auto; lia.
      * destruct (isTrailingSurrogate u); [discriminate|].
        intros H. inv_bind_as H rest Hrest. injection H as <-.
        rewrite chars_append, in_app_iff. intros [Hc | Hc].
        -- now apply (escapeOctets_chars _ c Hc).
        -- apply (IH (length r)) with (units := r) (segment := rest); auto; lia.
Qed.

Lemma encodeURIComponentUnits_unit (c : ascii) (r : list N) :
  encodeURIComponentUnits (N_of_ascii c :: r)
  = (rest <- encodeURIComponentUnits r ;; Ok (encodeUnit c ++ rest)).
Proof. destruct c as [[] [] [] [] [] [] [] []]; reflexivity. Qed.

(** On the strings of the development the two models agree, and the
    source does not throw. *)
Lemma encodeURIComponentUnits_unitsOf (s : string) :
  encodeURIComponentUnits (unitsOf s) = Ok (encodeURIComponent s).
Proof.
  unfold unitsOf. induction s as [|c r IH]; [reflexivity|].
  cbn [list_ascii_of_string map encodeURIComponent].
  now rewrite encodeURIComponentUnits_unit, IH.
Qed.

Lemma unitsOf_well_formed (s : string) : isWellFormed (unitsOf s) = true.
Proof.
  apply encodeURIComponentUnits_defined. rewrite encodeURIComponentUnits_unitsOf. eauto.
Qed.

(** A record of the development has a route: building its card does not
    throw. *)
Lemma projectHrefUnits_record (SITE_ROOT : string) (p : ProjectRecord) :
  projectHrefUnits SITE_ROOT (link p) (unitsOf (slug p)) = Ok (projectHref SITE_ROOT p).
Proof.
  unfold projectHrefUnits, projectHref. rewrite encodeURIComponentUnits_unitsOf.
  cbn [bind]. now destruct (nonEmpty (link p) && isExternal (link p)).
Qed.

(** X5: The route of a record, for a slug of any code units.  An http(s)
    link is the route itself, whatever the slug.  Otherwise, when the
    slug is well formed the route is the site root, one path segment and
    a solidus, the segment being the encoded slug, which holds no
    solidus, question mark or number sign; and when the slug holds a lone
    surrogate, [projectHref] throws a [URIError].  The slug of a record
    of code units below U+0100 is well formed and its route is
    [projectHref]; under one site root two such records that are not
    external have the same route only if they have the same slug. *)
Theorem projectHref_routes (SITE_ROOT target : string) (units : list N) :
  (isExternal target = true -> projectHrefUnits SITE_ROOT target units = Ok target)
  /\ (isExternal target = false -> isWellFormed units = true ->
      exists segment,
        projectHrefUnits SITE_ROOT target units = Ok (SITE_ROOT ++ segment ++ "/")
        /\ encodeURIComponentUnits units = Ok segment
        /\ forall c, In c (list_ascii_of_string segment) ->
                     c <> "/"%char /\ c <> "?"%char /\ c <> "#"%char)
  /\ (isExternal target = false -> isWellFormed units = false ->
      projectHrefUnits SITE_ROOT target units = Throw URIError)
  /\ (forall p : ProjectRecord,
        isWellFormed (unitsOf (slug p)) = true
        /\ projectHrefUnits SITE_ROOT (link p) (unitsOf (slug p))
           = Ok (projectHref SITE_ROOT p))
  /\ (forall p q : ProjectRecord,
        isExternal (link p) = false ->
        isExternal (link q) = false ->
        projectHref SITE_ROOT p = projectHref SITE_ROOT q -> slug p = slug q).
Proof.
  split; [|split; [|split; [|split]]].
  - intros Hx. unfold projectHrefUnits. rewrite Hx.
    destruct target; [discriminate Hx | reflexivity].
  - intros Hx Hw. unfold projectHrefUnits. rewrite Hx, andb_false_r.
    apply encodeURIComponentUnits_defined in Hw. destruct Hw as (segment & Hs).
    exists segment. rewrite Hs. cbn [bind]. repeat split.
    all: destruct (encodeURIComponentUnits_chars units segment c Hs H) as [Hu | ->];
      try discriminate; intros ->; discriminate Hu.
  - intros Hx Hw. unfold projectHrefUnits. rewrite Hx, andb_false_r.
    now rewrite (encodeURIComponentUnits_ill_formed units Hw).
  - intros p. split; [apply unitsOf_well_formed | apply projectHrefUnits_record].
  - intros p q Hp Hq. unfold projectHref. rewrite Hp, Hq, !andb_false_r. intros Heq.
    apply append_cancel_l, append_cancel_char in Heq.
    now apply encodeURIComponent_injective.
Qed.

Lemma projectHref_routes_witness :
  projectHrefUnits "../" "" [0x6D; 0xD83D; 0xDE00; 0x2F; 0xE9]%N
  = Ok "../m%F0%9F%98%80%2F%C3%A9/"
  /\ projectHrefUnits "../" "" [0x6D; 0xD83D]%N = Throw URIError
  /\ projectHrefUnits "../" "https://example.org/x" [0xDE00]%N
     = Ok "https://example.org/x".
Proof.
  split; [reflexivity | split].
  - exact (proj1 (proj2 (proj2 (projectHref_routes "../" "" [0x6D; 0xD83D]%N)))
             eq_refl eq_refl).
  - exact (proj1 (projectHref_routes "../" "https://example.org/x" [0xDE00]%N) eq_refl).
Defined.

End LinkFacts.

(** ** When normalisation throws, and what it returns *)

Section NormalizeDomain.
Context {E : Engine}.
Import Str StrFacts.

Lemma toStr_Ok_printable (j : json) (s : string) : toStr j = Ok s -> printable j = true.
Proof.
  revert s.
  induction j as [ | b | n | s0 | elems IH | props] using json_array_ind;
    intros s; try reflexivity.
  - rewrite toStr_JArr. intros H. inv_bind_as H parts Hparts. clear H.
    apply mapM_Ok in Hparts. cbn [printable]. apply forallb_forall.
    intros x Hx. rewrite Forall_forall in IH.
    induction Hparts as [|y t ys ts Hyt _ IHp]; [contradiction|].
    destruct Hx as [<- | Hx].
    + destruct y; try reflexivity; now apply (IH _ (or_introl eq_refl) t).
    + apply IHp; [|assumption]. intros z Hz. apply IH. now right.
  - cbn. now destruct (hasOwn "toString" props).
Qed.

Lemma toStr_unprintable (j : json) : printable j = false -> toStr j = Throw TypeError.
Proof.
  intros Hp. destruct (toStr j) as [s|e] eqn:Hj.
  - apply toStr_Ok_printable in Hj. congruence.
  - now rewrite (toStr_TypeError j e Hj).
Qed.

Lemma unprintable_truthy (j : json) : printable j = false -> truthyJson j = true.
Proof. destruct j; cbn; congruence. Qed.

Lemma stringField_throws_iff (p : json) (k dflt : string) :
  (exists e, stringField p k dflt = Throw e) <->
  p = JNull \/ exists j, getProp p k = Ok (VJson j) /\ printable j = false.
Proof.
  unfold stringField, orElse. split.
  - intros (e & H). apply bind_Throw in H. destruct H as [H | (v & Hv & H)].
    + left. now apply getProp_Throw in H.
    + right. apply bind_Throw in H. destruct H as [H | (s & _ & H)]; [|discriminate].
      destruct (truthy v); [|discriminate].
      destruct v as [ | j | ]; try discriminate. exists j. split; [assumption|].
      destruct (printable j) eqn:Hp; [|reflexivity].
      destruct (toStr_printable j Hp) as (s & Hs). cbn in H. congruence.
  - intros [-> | (j & Hj & Hp)]; [now exists TypeError|].
    exists TypeError. rewrite Hj. cbn [bind truthy].
    rewrite (unprintable_truthy j Hp). cbn [ToString].
    now rewrite (toStr_unprintable j Hp).
Qed.

Lemma linkField_throws_iff (p : json) :
  (exists e, (v <- getProp p "link" ;;
              if truthy v then s <- ToString v ;; Ok (trim s) else Ok "")
             = Throw e) <->
  p = JNull \/ exists j, getProp p "link" = Ok (VJson j) /\ printable j = false.
Proof.
  split.
  - intros (e & H). apply bind_Throw in H. destruct H as [H | (v & Hv & H)].
    + left. now apply getProp_Throw in H.
    + right. destruct (truthy v); [|discriminate].
      apply bind_Throw in H. destruct H as [H | (s & _ & H)]; [|discriminate].
      destruct v as [ | j | ]; try discriminate. exists j. split; [assumption|].
      destruct (printable j) eqn:Hp; [|reflexivity].
      destruct (toStr_printable j Hp) as (s & Hs). cbn in H. congruence.
  - intros [-> | (j & Hj & Hp)]; [now exists TypeError|].
    exists TypeError. rewrite Hj. cbn [bind truthy].
    rewrite (unprintable_truthy j Hp). cbn [ToString].
    now rewrite (toStr_unprintable j Hp).
Qed.

Lemma tagsField_throws_iff (p : json) :
  (exists e, tagsField p = Throw e) <->
  p = JNull
  \/ exists elems, getProp p "tags" = Ok (VJson (JArr elems))
                   /\ forallb printable elems = false.
Proof.
  split.
  - intros (e & H). unfold tagsField in H.
    apply bind_Throw in H. destruct H as [H | (v & Hv & H)].
    + left. now apply getProp_Throw in H.
    + right. destruct v as [ | [ | | | | elems | ] | ]; try discriminate.
      exists elems. split; [assumption|].
      apply bind_Throw in H. destruct H as [H | (ts & _ & H)]; [|discriminate].
      apply mapM_Throw in H. destruct H as (x & Hx & H).
      apply bind_Throw in H. destruct H as [H | (s & _ & H)]; [|discriminate].
      destruct (forallb printable elems) eqn:Hall; [|reflexivity].
      rewrite forallb_forall in Hall.
      destruct (toStr_printable x (Hall x Hx)) as (s & Hs). congruence.
  - intros [-> | (elems & Hel & Hall)]; [now exists TypeError|].
    destruct (tagsField p) as [ts|e] eqn:Ht; [|now exists e].
    exfalso. unfold tagsField in Ht. rewrite Hel in Ht. cbn [bind] in Ht.
    inv_bind_as Ht xs Hxs. clear Ht. apply mapM_Ok in Hxs.
    assert (Hp : forallb printable elems = true); [|congruence].
    clear Hel Hall. apply forallb_forall. intros x Hx.
    induction Hxs as [|y t ys ts' Hyt _ IH]; [contradiction|].
    destruct Hx as [<- | Hx]; [|now apply IH].
    inv_bind_as Hyt s Hs. now apply toStr_Ok_printable in Hs.
Qed.

(** X6: [normalizeProject] throws, and then a [TypeError], exactly when the
    raw value is [null], or one of the seven properties it converts to a
    string holds an object with an own [toString] property (directly or
    through arrays), or [tags] is an array with such an element. *)
Theorem normalizeProject_throws_iff (p : json) :
  normalizeProject p = Throw TypeError <->
  p = JNull
  \/ (exists k j, In k stringKeys /\ getProp p k = Ok (VJson j) /\ printable j = false)
  \/ (exists elems, getProp p "tags" = Ok (VJson (JArr elems))
                    /\ forallb printable elems = false).
Proof.
  split.
  - intros H. unfold normalizeProject in H.
    assert (S : forall k dflt e, stringField p k dflt = Throw e -> In k stringKeys ->
                  p = JNull
                  \/ (exists k j, In k stringKeys /\ getProp p k = Ok (VJson j)
                                  /\ printable j = false)
                  \/ (exists elems, getProp p "tags" = Ok (VJson (JArr elems))
                                    /\ forallb printable elems = false)).
    { intros k dflt e Hk Hin.
      destruct (proj1 (stringField_throws_iff p k dflt) (ex_intro _ e Hk))
        as [-> | (j & Hj & Hp)]; [now left|].
      right. left. now exists k, j. }
    apply bind_Throw in H. destruct H as [H | (t & _ & H)];
      [apply (S _ _ _ H); cbn; tauto|].
    apply bind_Throw in H. destruct H as [H | (sl & _ & H)];
      [apply (S _ _ _ H); cbn; tauto|].
    apply bind_Throw in H. destruct H as [H | (d & _ & H)];
      [apply (S _ _ _ H); cbn; tauto|].
    apply bind_Throw in H. destruct H as [H | (th & _ & H)];
      [apply (S _ _ _ H); cbn; tauto|].
    apply bind_Throw in H. destruct H as [H | (tg & _ & H)].
    { destruct (proj1 (tagsField_throws_iff p) (ex_intro _ _ H))
        as [-> | Hel]; [now left | now right; right]. }
    apply bind_Throw in H. destruct H as [H | (c & _ & H)].
    { apply bind_Throw in H. destruct H as [H | (c & _ & H)]; [|discriminate].
      apply (S _ _ _ H); cbn; tauto. }
    apply bind_Throw in H. destruct H as [H | (f & _ & H)].
    { apply bind_Throw in H. destruct H as [H | (v & _ & H)]; [|discriminate].
      left. now apply getProp_Throw in H. }
    apply bind_Throw in H. destruct H as [H | (dt & _ & H)];
      [apply (S _ _ _ H); cbn; tauto|].
    apply bind_Throw in H. destruct H as [H | (l & _ & H)]; [|discriminate].
    destruct (proj1 (linkField_throws_iff p) (ex_intro _ _ H))
      as [-> | (j & Hj & Hp)]; [now left|].
    right. left. exists "link", j. cbn. tauto.
  - intros Hcond. destruct (normalizeProject p) as [r|e] eqn:Hn.
    2:{ now rewrite (normalizeProject_TypeError p e Hn). }
    exfalso. unfold normalizeProject in Hn.
    inv_bind_as Hn t Ht. inv_bind_as Hn sl Hsl. inv_bind_as Hn d Hd.
    inv_bind_as Hn th Hth. inv_bind_as Hn tg Htg. inv_bind_as Hn c Hc.
    inv_bind_as Hn f Hf. inv_bind_as Hn dt Hdt. inv_bind_as Hn l Hl.
    inv_bind_as Hc c0 Hc0.
    assert (S : forall k dflt s, stringField p k dflt = Ok s ->
                  ~ (p = JNull \/ exists j, getProp p k = Ok (VJson j)
                                            /\ printable j = false)).
    { intros k dflt s Hk Hbad. apply (stringField_throws_iff p k dflt) in Hbad.
      destruct Hbad as (e & He). congruence. }
    destruct Hcond as [-> | [(k & j & Hk & Hj & Hp) | (elems & Hel & Hall)]].
    + discriminate Ht.
    + cbn in Hk.
      destruct Hk as [<- | [<- | [<- | [<- | [<- | [<- | [<- | []]]]]]]];
        try (match goal with
             | Hj' : getProp p ?k' = Ok (VJson j) |- _ =>
                 refine (S k' _ _ _ _); [eassumption | right; now exists j]
             end).
      assert (Hbad : exists e, (v <- getProp p "link" ;;
                                if truthy v then s <- ToString v ;; Ok (trim s)
                                else Ok "") = Throw e).
      { apply linkField_throws_iff. right. now exists j. }
      destruct Hbad as (e & He). congruence.
    + assert (Hbad : exists e, tagsField p = Throw e).
      { apply tagsField_throws_iff. right. now exists elems. }
      destruct Hbad as (e & He). congruence.
Qed.

(** X7: Every string that [normalizeProject] returns is trimmed: no field and
    no tag starts or ends with white space. *)
Theorem normalizeProject_trims (p : json) (r : ProjectRecord) :
  normalizeProject p = Ok r ->
  Forall (fun s => trim s = s)
    ([title r; slug r; description r; thumbnail r; category r; date r; link r]
       ++ tags r).
Proof.
  intros H. apply normalizeProject_Normalized in H.
  destruct H as [Ht Hsl Hd Hth Htg [Hc _] Hdt Hl].
  repeat (constructor; [assumption|]).
  eapply Forall_impl; [|exact Htg]. now intros s (Hs & _).
Qed.

(** X9: One raw record that cannot be normalised fails the whole load: no
    list is returned, whatever the other records are. *)
Theorem loadProjects_one_bad_record (res : Response) (elems : list json)
    (p : json) (e : exn) :
  ok res = true -> body res = Some (JArr elems) ->
  In p elems -> normalizeProject p = Throw e ->
  loadProjects (Resolved res) = Throw TypeError.
Proof.
  intros Hok Hbody Hin Hp. unfold loadProjects. cbn [bind].
  rewrite Hok, Hbody. cbn [negb bind].
  assert (Hm : mapM normalizeProject elems = Throw TypeError).
  { clear Hbody. induction elems as [|x r IH]; [contradiction|]. cbn [mapM].
    destruct (normalizeProject x) as [y|e'] eqn:Hx; cbn [bind].
    - destruct Hin as [-> | Hin]; [congruence|]. now rewrite (IH Hin).
    - now rewrite (normalizeProject_TypeError x e' Hx). }
  now rewrite Hm.
Qed.

End NormalizeDomain.

Lemma normalizeProject_trims_witness :
  normalizeProject (E := Sample.engine)
    (JObj [("title", JStr "  A  "); ("tags", JArr [JStr " x "; JStr "   "])])
  = Ok {| title := "A"; slug := ""; description := ""; thumbnail := "";
          tags := ["x"]; category := "Other"; featured := false; date := "";
          link := "" |}
  /\ Forall (fun s => Str.trim s = s) ["A"; ""; ""; ""; "Other"; ""; ""; "x"].
Proof.
  split; [reflexivity|].
  exact (normalizeProject_trims (E := Sample.engine)
           (JObj [("title", JStr "  A  "); ("tags", JArr [JStr " x "; JStr "   "])])
           _ eq_refl).
Defined.

Lemma loadProjects_one_bad_record_witness :
  loadProjects (E := Sample.engine)
    (Resolved {| ok := true;
                 body := Some (JArr [JObj [("title", JStr "A"); ("slug", JStr "a")];
                                     JNull]) |})
  = Throw TypeError.
Proof.
  exact (loadProjects_one_bad_record (E := Sample.engine)
           {| ok := true;
              body := Some (JArr [JObj [("title", JStr "A"); ("slug", JStr "a")];
                                  JNull]) |}
           [JObj [("title", JStr "A"); ("slug", JStr "a")]; JNull] JNull TypeError
           eq_refl eq_refl (or_intror (or_introl eq_refl)) eq_refl).
Defined.

(** ** Searching, re-sorting and re-resolving *)

Module SearchFacts.
Import Str StrFacts FilterFacts LinkFacts.

Lemma append_nil_r (s : string) : s ++ "" = s.
Proof. induction s as [|c r IH]; cbn; [reflexivity | now rewrite IH]. Qed.

Lemma occursIn_refl (s : string) : occursIn s s.
Proof. exists "", "". cbn. now rewrite append_nil_r. Qed.

Lemma occursIn_trans (a b c : string) : occursIn a b -> occursIn b c -> occursIn a c.
Proof.
  intros (p1 & q1 & ->) (p2 & q2 & ->).
  exists (p2 ++ p1), (q1 ++ q2). now rewrite !append_assoc.
Qed.

Lemma join_occurs (sep f : string) (l : list string) :
  In f l -> occursIn f (join sep l).
Proof.
  induction l as [|s rest IH]; [contradiction|].
  intros Hin. destruct rest as [|s' rest'].
  - destruct Hin as [<- | []]. apply occursIn_refl.
  - change (join sep (s :: s' :: rest')) with (s ++ sep ++ join sep (s' :: rest')).
    destruct Hin as [<- | Hin].
    + now exists "", (sep ++ join sep (s' :: rest')).
    + destruct (IH Hin) as (pre & post & ->).
      exists (s ++ sep ++ pre), post. now rewrite !append_assoc.
Qed.

Lemma trimStart_suffix (s : string) : exists pre, s = pre ++ trimStart s.
Proof.
  induction s as [|c r (pre & IH)]; cbn [trimStart]; [now exists ""|].
  destruct (isWhiteSpace c); [|now exists ""].
  exists (String c pre). cbn. now rewrite <- IH.
Qed.

Lemma trimEnd_prefix (s : string) : exists post, s = trimEnd s ++ post.
Proof.
  induction s as [|c r (post & IH)]; cbn [trimEnd]; [now exists ""|].
  destruct (isWhiteSpace c && negb (nonEmpty (trimEnd r))).
  - now exists (String c r).
  - exists post. cbn. now rewrite <- IH.
Qed.

Lemma trim_occurs (s : string) : occursIn (trim s) s.
Proof.
  unfold trim. destruct (trimStart_suffix s) as (pre & Hpre).
  destruct (trimEnd_prefix (trimStart s)) as (post & Hpost).
  exists pre, post. now rewrite <- Hpost.
Qed.

(** X10: A query finds a record whenever, lower-cased and trimmed, it occurs in
    the lower-cased title, description, category or one of the tags; in
    particular a field typed in full is found in any letter case. *)
Theorem matches_finds_field (p : ProjectRecord) (query f : string) :
  In f (title p :: description p :: category p :: tags p) ->
  (occursIn (trim (toLowerCase query)) (toLowerCase f) -> matches p query = true)
  /\ (toLowerCase query = toLowerCase f -> matches p query = true).
Proof.
  intros Hin.
  assert (H : occursIn (trim (toLowerCase query)) (toLowerCase f) ->
              matches p query = true).
  { intros Hocc. apply matches_spec. right.
    apply (occursIn_trans _ _ _ Hocc), join_occurs. now apply in_map. }
  split; [exact H|].
  intros Heq. apply H. rewrite Heq. apply trim_occurs.
Qed.

Lemma matches_finds_field_witness :
  matches {| title := "T"; slug := "t"; description := "A Bluebird sings";
             thumbnail := ""; tags := []; category := "Other";
             featured := false; date := ""; link := "" |} "blue" = true.
Proof.
  refine (proj1 (matches_finds_field
                   {| title := "T"; slug := "t"; description := "A Bluebird sings";
                      thumbnail := ""; tags := []; category := "Other";
                      featured := false; date := ""; link := "" |}
                   "blue" "A Bluebird sings" _) _).
  - right. left. reflexivity.
  - exists "a ", "bird sings". reflexivity.
Defined.

Lemma trimEnd_append_char (s : string) (c : ascii) :
  isWhiteSpace c = false -> trimEnd (s ++ String c "") = s ++ String c "".
Proof.
  intros Hc. induction s as [|x r IH]; cbn [append trimEnd].
  - now rewrite Hc.
  - rewrite IH. destruct r; cbn [append nonEmpty negb]; now rewrite andb_false_r.
Qed.

Lemma trimmed_head (c : ascii) (r : string) :
  trim (String c r) = String c r -> isWhiteSpace c = false.
Proof.
  unfold trim. intros H.
  destruct (trimStart_head (String c r)) as [He | (d & r' & He & Hd)];
    rewrite He in H.
  - discriminate H.
  - rewrite (trimEnd_head d r' Hd) in H. now injection H as <- _.
Qed.

Lemma trim_append_slash (t : string) :
  nonEmpty t = true -> trim t = t -> trim (t ++ "/") = t ++ "/".
Proof.
  intros Hne Ht. destruct t as [|c r]; [discriminate|].
  pose proof (trimmed_head c r Ht) as Hc.
  unfold trim. cbn [append trimStart]. rewrite Hc.
  apply (trimEnd_append_char (String c r) "/"). reflexivity.
Qed.

(** X11: What [getSiteRoot] returns is a fixed point of it: never empty,
    trimmed, and returned unchanged when it is the configured value. *)
Theorem getSiteRoot_idempotent (meta : option string) :
  getSiteRoot meta <> ""
  /\ trim (getSiteRoot meta) = getSiteRoot meta
  /\ getSiteRoot (Some (getSiteRoot meta)) = getSiteRoot meta.
Proof.
  assert (Hfix : forall R, nonEmpty R = true -> trim R = R -> endsWith R "/" = true ->
                   getSiteRoot (Some R) = R).
  { intros R Hne Ht He. unfold getSiteRoot.
    rewrite Hne. cbv beta iota zeta. rewrite Ht, Hne. cbn [negb].
    now rewrite He. }
  assert (Hshape : nonEmpty (getSiteRoot meta) = true
                   /\ trim (getSiteRoot meta) = getSiteRoot meta
                   /\ endsWith (getSiteRoot meta) "/" = true).
  { unfold getSiteRoot.
    set (root0 := match meta with
                  | Some content => if nonEmpty content then trim content else "./"
                  | None => "./"
                  end).
    assert (H0 : trim root0 = root0).
    { subst root0. destruct meta as [content|]; [|reflexivity].
      destruct (nonEmpty content); [apply trim_idem | reflexivity]. }
    set (root1 := if negb (nonEmpty root0) then "./" else root0).
    assert (H1 : nonEmpty root1 = true /\ trim root1 = root1).
    { subst root1. destruct (nonEmpty root0) eqn:Hn; cbn [negb]; auto. }
    destruct H1 as (Hn1 & Ht1).
    destruct (endsWith root1 "/") eqn:He; cbn [negb].
    - auto.
    - repeat split.
      + now destruct root1.
      + now apply trim_append_slash.
      + apply endsWith_append. }
  destruct Hshape as (Hne & Ht & He).
  split; [now apply nonEmpty_true | split; [exact Ht | now apply Hfix]].
Qed.

End SearchFacts.

Section ResortFacts.
Context {E : Engine}.

Lemma sortBy_sorted_id {A : Type} (cmp : A -> A -> Z) (l : list A) :
  StronglySorted (mayPrecede cmp) l -> sortBy cmp l = l.
Proof.
  induction 1 as [|x r Hr IH Hx]; [reflexivity|].
  cbn [sortBy]. rewrite IH. destruct r as [|y r']; [reflexivity|].
  cbn [insertBy]. inversion Hx as [|? ? Hxy _]; subst.
  unfold mayPrecede in Hxy. apply Z.leb_le in Hxy. now rewrite Hxy.
Qed.

Lemma filter_StronglySorted {A : Type} (R : A -> A -> Prop) (f : A -> bool)
    (l : list A) :
  StronglySorted R l -> StronglySorted R (filter f l).
Proof.
  induction 1 as [|x r Hr IH Hx]; cbn [filter]; [constructor|].
  destruct (f x); [|exact IH].
  constructor; [exact IH|].
  rewrite Forall_forall in *. intros y Hy. apply Hx.
  now apply filter_In in Hy.
Qed.

(** X12: Sorting is idempotent: the sorted list is left as it is by sorting it
    again. *)
Theorem sortProjects_idempotent (projects : list ProjectRecord) :
  ConsistentComparator localeCompare ->
  sortProjects (sortProjects projects) = sortProjects projects.
Proof.
  intros Hlc. unfold sortProjects. apply sortBy_sorted_id.
  apply sortBy_sorted. now apply compareProjects_consistent.
Qed.

(** X13: Filtering keeps the order of the sort: the visible records are in
    sorted order for every selection and query. *)
Theorem applyFilters_keeps_order (projects : list ProjectRecord)
    (searchInput categorySelect : option string) (activeTag : string) :
  ConsistentComparator localeCompare ->
  StronglySorted (mayPrecede compareProjects)
    (applyFilters searchInput categorySelect activeTag (sortProjects projects)).
Proof.
  intros Hlc. unfold applyFilters. apply filter_StronglySorted.
  unfold sortProjects. apply sortBy_sorted. now apply compareProjects_consistent.
Qed.

End ResortFacts.

Lemma sortProjects_idempotent_witness :
  sortProjects (E := Sample.engine)
    (sortProjects (E := Sample.engine)
       [Sample.project "A" "2024-01-01"; Sample.project "B" "2024-02-01"])
  = [Sample.project "B" "2024-02-01"; Sample.project "A" "2024-01-01"].
Proof.
  rewrite (sortProjects_idempotent (E := Sample.engine) _
             SampleFacts.compareCodeUnits_consistent).
  reflexivity.
Defined.

Lemma applyFilters_keeps_order_witness :
  StronglySorted (mayPrecede (compareProjects (E := Sample.engine)))
    (applyFilters (Some "a") None "All"
       (sortProjects (E := Sample.engine)
          [Sample.project "a" "2024-01-01"; Sample.project "ab" "2024-02-01"])).
Proof.
  exact (applyFilters_keeps_order (E := Sample.engine) _ (Some "a") None "All"
           SampleFacts.compareCodeUnits_consistent).
Defined.

(** ** Cards *)

Module CardFacts.
Import Str StrFacts Dom.

Section WithFunctionText.
Context {FT : FunctionText}.

Lemma fold_setEntry_shape (tag : string) (attrs : list (string * attrValue)) :
  forall a l h,
  exists a' l' h',
    fold_left setEntry attrs (Element tag a l h []) = Element tag a' l' h' [].
Proof.
  induction attrs as [|[k v] r IH]; intros a l h; cbn [fold_left]; [eauto|].
  unfold setEntry.
  destruct (String.eqb k "class"); [apply IH|].
  destruct (startsWith k "on"), v, (String.eqb k "html"); apply IH.
Qed.

Lemma fold_appendOne (cs : list child) :
  forall tag a l h cs0,
    fold_left appendOne (filter truthyChild cs) (Element tag a l h cs0)
    = Element tag a l h (cs0 ++ flat_map nodeOf cs).
Proof.
  induction cs as [|c r IH]; intros tag a l h cs0; cbn [filter flat_map fold_left].
  - now rewrite app_nil_r.
  - destruct c as [ | s | n]; cbn [truthyChild nodeOf].
    + apply IH.
    + destruct (nonEmpty s); cbn [fold_left appendOne appendChild].
      * now rewrite IH, <- app_assoc.
      * apply IH.
    + cbn [fold_left appendOne appendChild]. now rewrite IH, <- app_assoc.
Qed.

(** The element [el] returns: the attributes decide everything but the
    children, which are the truthy children in order. *)
Lemma el_shape (tag : string) (attrs : list (string * attrValue)) (ch : children) :
  el tag attrs ch
  = match fold_left setEntry attrs (Element tag [] [] None []) with
    | Element t a l h _ =>
        Element t a l h (flat_map nodeOf (match ch with One c => [c] | Many cs => cs end))
    | Text s => Text s
    end.
Proof.
  unfold el.
  destruct (fold_setEntry_shape tag attrs [] [] None) as (a & l & h & ->).
  now rewrite fold_appendOne.
Qed.

Lemma flat_map_CNode (ns : list node) : flat_map nodeOf (map CNode ns) = ns.
Proof. induction ns as [|n r IH]; cbn; [reflexivity | now rewrite IH]. Qed.

(** A tag chip. *)
Lemma tag_span (t : string) :
  el "span" [("class", AStr "tag")] (One (CText t)) = tagChip t.
Proof. rewrite el_shape. cbn. now rewrite app_nil_r. Qed.

Lemma append_isExternal_true (root x : string) :
  isExternal root = true -> isExternal (root ++ x) = true.
Proof.
  destruct root as [|h [|t1 [|t2 [|p r]]]]; try discriminate.
  cbn [isExternal append]. rewrite !andb_true_iff, !orb_true_iff.
  intros (Hhead & Htail). split; [exact Hhead|].
  destruct Htail as [Ht | Ht].
  - left. apply prefix_spec in Ht. destruct Ht as (rest & ->).
    apply prefix_spec. exists (rest ++ x). now rewrite LinkFacts.append_assoc.
  - right. destruct r as [|s r']; [discriminate|].
    cbn [append]. rewrite andb_true_iff in *. destruct Ht as (Hs & Ht).
    split; [exact Hs|].
    apply prefix_spec in Ht. destruct Ht as (rest & ->).
    apply prefix_spec. exists (rest ++ x). now rewrite LinkFacts.append_assoc.
Qed.

Lemma append_isExternal_relative (c : ascii) (r x : string) :
  c <> "h"%char -> c <> "H"%char -> isExternal (String c r ++ x) = false.
Proof.
  intros Hh HH. cbn [append].
  destruct (r ++ x) as [|t1 [|t2 [|p rest]]]; try reflexivity.
  cbn [isExternal]. unfold eqIgnoreCase at 1.
  destruct (Ascii.eqb_spec c "h"); [contradiction|].
  destruct (Ascii.eqb_spec c "H"); [contradiction|].
  reflexivity.
Qed.

Lemma card_attributes (SITE_ROOT : string) (p : ProjectRecord) :
  exists ls html cs,
    projectCard SITE_ROOT p
    = Element "a"
        ([("class", "card project"); ("href", projectHref SITE_ROOT p);
          ("aria-label", ("View project " ++ title p)%string)]
           ++ (if isExternal (projectHref SITE_ROOT p)
               then [("target", "_blank"); ("rel", "noreferrer")] else []))%list
        ls html cs.
Proof.
  unfold projectCard. rewrite (el_shape "a"). cbn [fold_left setEntry].
  cbn [String.eqb Ascii.eqb Bool.eqb startsWith prefix ascii_dec ascii_rec ascii_rect
       bool_dec bool_rec bool_rect sumbool_rec sumbool_rect andb valueText
       setAttribute setAttr].
  destruct (isExternal (projectHref SITE_ROOT p)); cbn; eauto.
Qed.

(** X14: Where a card leads.  Under a site root that is itself an http(s) URL
    every card opens in a new browsing context without referrer.  Under
    a relative site root (one that does not start with the letter h) a
    card does so exactly when the record has an http(s) link, which is
    then its address; otherwise its address is the route of its slug. *)
Theorem projectCard_link (SITE_ROOT : string) (p : ProjectRecord) :
  getAttribute (projectCard SITE_ROOT p) "href" = Some (projectHref SITE_ROOT p)
  /\ (isExternal SITE_ROOT = true ->
      getAttribute (projectCard SITE_ROOT p) "target" = Some "_blank"
      /\ getAttribute (projectCard SITE_ROOT p) "rel" = Some "noreferrer")
  /\ (forall c r, SITE_ROOT = String c r -> c <> "h"%char -> c <> "H"%char ->
      (isExternal (link p) = true ->
       getAttribute (projectCard SITE_ROOT p) "href" = Some (link p)
       /\ getAttribute (projectCard SITE_ROOT p) "target" = Some "_blank"
       /\ getAttribute (projectCard SITE_ROOT p) "rel" = Some "noreferrer")
      /\ (isExternal (link p) = false ->
          getAttribute (projectCard SITE_ROOT p) "href"
          = Some (SITE_ROOT ++ encodeURIComponent (slug p) ++ "/")
          /\ getAttribute (projectCard SITE_ROOT p) "target" = None
          /\ getAttribute (projectCard SITE_ROOT p) "rel" = None)).
Proof.
  destruct (card_attributes SITE_ROOT p) as (ls & html & cs & ->).
  cbn [getAttribute app getAttr String.eqb Ascii.eqb Bool.eqb].
  split; [reflexivity|]. split.
  - intros Hroot.
    assert (Hx : isExternal (projectHref SITE_ROOT p) = true).
    { unfold projectHref.
      destruct (nonEmpty (link p) && isExternal (link p)) eqn:Hl.
      - now apply andb_true_iff in Hl.
      - now apply append_isExternal_true. }
    rewrite Hx. split; reflexivity.
  - intros c r -> Hh HH. split; intros Hl.
    + assert (Hhref : projectHref (String c r) p = link p).
      { unfold projectHref. rewrite Hl. now destruct (link p). }
      rewrite Hhref, Hl. repeat split.
    + assert (Hhref : projectHref (String c r) p
                      = String c r ++ encodeURIComponent (slug p) ++ "/").
      { unfold projectHref. now rewrite Hl, andb_false_r. }
      rewrite Hhref, (append_isExternal_relative c r _ Hh HH). repeat split.
Qed.

Lemma elements_unfold (keep : node -> bool) (t : string)
    (a : list (string * string)) (l : list (string * listener))
    (h : option string) (cs : list node) :
  elements keep (Element t a l h cs)
  = ((if keep (Element t a l h cs) then [Element t a l h cs] else [])
       ++ flat_map (elements keep) cs)%list.
Proof. reflexivity. Qed.

Lemma elements_tagChips (keep : node -> bool) (b : bool) (ts : list string) :
  (forall t, keep (tagChip t) = b) ->
  flat_map (elements keep) (map tagChip ts) = if b then map tagChip ts else [].
Proof.
  intros Hk. induction ts as [|t r IH]; [now destruct b|].
  cbn [map flat_map]. rewrite IH. unfold tagChip at 1. rewrite elements_unfold.
  fold (tagChip t). rewrite (Hk t).
  assert (Hnone : flat_map (elements keep) (nodeOf (CText t)) = []).
  { cbn [nodeOf]. now destruct (nonEmpty t). }
  rewrite Hnone. now destruct b.
Qed.

Lemma ownText_tagChip (t : string) : ownText (tagChip t) = t.
Proof. now destruct t. Qed.

(** The tree of a card. *)
Lemma card_tree (SITE_ROOT : string) (p : ProjectRecord) :
    projectCard SITE_ROOT p
    = Element "a"
        ([("class", "card project"); ("href", projectHref SITE_ROOT p);
          ("aria-label", ("View project " ++ title p)%string)]
           ++ (if isExternal (projectHref SITE_ROOT p)
               then [("target", "_blank"); ("rel", "noreferrer")] else []))%list
        [] None
        [Element "div" [("class", "thumb")] [] None
           [Element "img"
              [("src", resolveAssetPath SITE_ROOT (thumbnail p));
               ("alt", title p ++ " thumbnail"); ("loading", "lazy")]
              [("error", UsePlaceholder (PLACEHOLDER_THUMB SITE_ROOT))] None []];
         Element "div" [("class", "project-body")] [] None
           [Element "div" [("class", "project-title")] [] None
              [Element "strong" [] [] None (nodeOf (CText (title p)));
               Element "span" [("class", "cat")] [] None (nodeOf (CText (category p)))];
            Element "p" [("class", "project-desc")] [] None
              (nodeOf (CText (description p)));
            Element "div" [("class", "tags")] [] None
              (map tagChip (firstn 6 (tags p)))]].
Proof.
  unfold projectCard.
  rewrite (FeaturedFacts.slice0_firstn (tags p) 6%Z) by lia.
  change (Z.to_nat 6) with 6%nat.
  replace (map (fun t => CNode (el "span" [("class", AStr "tag")] (One (CText t))))
               (firstn 6 (tags p)))
    with (map CNode (map tagChip (firstn 6 (tags p))))
    by (rewrite map_map; apply map_ext; intros t; now rewrite tag_span).
  rewrite !el_shape.
  cbn [fold_left setEntry String.eqb Ascii.eqb Bool.eqb startsWith prefix ascii_dec
       ascii_rec ascii_rect bool_dec bool_rec bool_rect sumbool_rec sumbool_rect
       andb valueText setAttribute setAttr addEventListener app flat_map].
  rewrite flat_map_CNode, !app_nil_r.
  now destruct (isExternal (projectHref SITE_ROOT p)).
Qed.

(** X15: The image of a card: there is one; its source is the resolved
    thumbnail; when it fails to load, the listener makes the placeholder
    its source, changes nothing else, and a second failure changes
    nothing more. *)
Theorem projectCard_image (SITE_ROOT : string) (p : ProjectRecord) :
  exists img,
    elements (hasTag "img") (projectCard SITE_ROOT p) = [img]
    /\ getAttribute img "src" = Some (resolveAssetPath SITE_ROOT (thumbnail p))
    /\ getAttribute img "alt" = Some (title p ++ " thumbnail")
    /\ getAttribute (dispatchEvent img "error") "src"
       = Some (SITE_ROOT ++ "assets/thumbs/placeholder.svg")
    /\ getAttribute (dispatchEvent img "error") "alt" = Some (title p ++ " thumbnail")
    /\ dispatchEvent (dispatchEvent img "error") "error" = dispatchEvent img "error".
Proof.
  rewrite card_tree. eexists. split.
  - repeat (rewrite !elements_unfold;
            cbn [hasTag String.eqb Ascii.eqb Bool.eqb flat_map app]).
    rewrite (elements_tagChips _ false) by reflexivity.
    assert (Hnone : forall s, flat_map (elements (hasTag "img")) (nodeOf (CText s)) = []).
    { intros s. cbn [nodeOf]. now destruct (nonEmpty s). }
    rewrite !Hnone. cbn [app]. reflexivity.
  - repeat split.
Qed.

(** X16: The text of a card: its heading is the title, its label the
    category, its paragraph the description, and its chips are the first
    six tags, in order. *)
Theorem projectCard_content (SITE_ROOT : string) (p : ProjectRecord) :
  map ownText (elements (hasTag "strong") (projectCard SITE_ROOT p)) = [title p]
  /\ map ownText (elements (hasClass "cat") (projectCard SITE_ROOT p)) = [category p]
  /\ map ownText (elements (hasClass "project-desc") (projectCard SITE_ROOT p))
     = [description p]
  /\ map ownText (elements (hasClass "tag") (projectCard SITE_ROOT p))
     = firstn 6 (tags p).
Proof.
  rewrite card_tree.
  assert (Htext : forall keep s, flat_map (elements keep) (nodeOf (CText s)) = []).
  { intros keep s. cbn [nodeOf]. now destruct (nonEmpty s). }
  assert (Hown : forall t a s, ownText (Element t a [] None (nodeOf (CText s))) = s).
  { intros t a s. now destruct s. }
  repeat split.
  - repeat (rewrite !elements_unfold;
            cbn [hasTag String.eqb Ascii.eqb Bool.eqb flat_map app]).
    rewrite (elements_tagChips _ false) by reflexivity.
    rewrite !Htext. cbn [app map]. now rewrite Hown.
  - repeat (rewrite !elements_unfold;
            cbn [hasClass getAttribute getAttr String.eqb Ascii.eqb Bool.eqb
                 flat_map app]).
    rewrite (elements_tagChips _ false) by reflexivity.
    rewrite !Htext. cbn [app map]. now rewrite Hown.
  - repeat (rewrite !elements_unfold;
            cbn [hasClass getAttribute getAttr String.eqb Ascii.eqb Bool.eqb
                 flat_map app]).
    rewrite (elements_tagChips _ false) by reflexivity.
    rewrite !Htext. cbn [app map]. now rewrite Hown.
  - repeat (rewrite !elements_unfold;
            cbn [hasClass getAttribute getAttr String.eqb Ascii.eqb Bool.eqb
                 flat_map app]).
    rewrite (elements_tagChips _ true) by reflexivity.
    rewrite !Htext. cbn [app]. rewrite !app_nil_r, map_map.
    rewrite <- (map_id (firstn 6 (tags p))) at 2.
    apply map_ext. apply ownText_tagChip.
Qed.

End WithFunctionText.

End CardFacts.

(** ** The list view *)

Module ListViewFacts.
Import Str StrFacts FilterFacts.

Lemma filter_all {A : Type} (f : A -> bool) (l : list A) :
  (forall x, In x l -> f x = true) -> filter f l = l.
Proof.
  induction l as [|x r IH]; intros H; [reflexivity|].
  cbn [filter]. rewrite (H x (or_introl eq_refl)). f_equal.
  apply IH. intros y Hy. apply H. now right.
Qed.

(** With no query, category "All" and tag "All", whether read from the
    controls or taken by default, nothing is filtered out. *)
Lemma applyFilters_defaults (q cat : option string) (l : list ProjectRecord) :
  (q = None \/ q = Some "") -> (cat = None \/ cat = Some "All") ->
  applyFilters q cat "All" l = l.
Proof.
  intros [-> | ->] [-> | ->]; unfold applyFilters; apply filter_all;
    intros p _; reflexivity.
Qed.

Lemma filtered_applyFilters (s : ListView.State) :
  ListView.filtered (ListView.applyFilters s) = ListView.filtered s.
Proof. reflexivity. Qed.

(** The part of the state that no listener changes. *)
Lemma handle_frame (s : ListView.State) (ev : ListView.event) :
  ListView.page (ListView.handle s ev) = ListView.page s
  /\ ListView.allProjects (ListView.handle s ev) = ListView.allProjects s
  /\ ListView.categoryOptions (ListView.handle s ev) = ListView.categoryOptions s
  /\ map fst (ListView.tagButtons (ListView.handle s ev))
     = map fst (ListView.tagButtons s).
Proof.
  destruct s as [[si cs tw cb ce] all tag sv cv co tb cd ct].
  destruct ev as [v | v | t | ]; cbn.
  - destruct si; cbn; auto.
  - destruct (cs && existsb (String.eqb v) co); cbn; auto.
  - destruct (tw && existsb (String.eqb t) (map fst tb)) eqn:Hc; cbn; auto.
    apply andb_true_iff in Hc. destruct Hc as (-> & _). cbn.
    repeat split. rewrite map_map. now apply map_ext.
  - destruct cb; cbn; auto.
    destruct si, cs, tw; cbn; repeat split; rewrite ?map_map; now try apply map_ext.
Qed.

Lemma applyFilters_inSync (s : ListView.State) :
  ListView.inSync (ListView.applyFilters s).
Proof.
  split; [reflexivity|]. cbn. now intros ->.
Qed.

Lemma handle_inSync (s : ListView.State) (ev : ListView.event) :
  ListView.inSync s -> ListView.inSync (ListView.handle s ev).
Proof.
  intros Hs. destruct ev as [v | v | t | ]; cbn [ListView.handle].
  - destruct (ListView.searchInput (ListView.page s)); [apply applyFilters_inSync | exact Hs].
  - destruct (_ && _); [apply applyFilters_inSync | exact Hs].
  - destruct (ListView.tagsWrap (ListView.page s)
              && existsb (String.eqb t) (map fst (ListView.tagButtons s))) eqn:Hc;
      [|exact Hs].
    apply andb_true_iff in Hc. destruct Hc as (Htw & _).
    unfold ListView.setActiveTag. rewrite Htw. cbn [negb]. apply applyFilters_inSync.
  - destruct (ListView.clearBtn (ListView.page s)); [apply applyFilters_inSync | exact Hs].
Qed.

Lemma handle_controlsConsistent (s : ListView.State) (ev : ListView.event) :
  ListView.controlsConsistent s -> ListView.controlsConsistent (ListView.handle s ev).
Proof.
  destruct s as [[si cs tw cb ce] all tag sv cv co tb cd ct].
  unfold ListView.controlsConsistent. cbn. intros (Htw & Hno & Hcat).
  assert (Hmark : forall t,
            map (fun b : string * option bool => (fst b, Some (String.eqb (fst b) t))) tb
            = map (fun t' => (t', Some (String.eqb t' t)))
                  (map fst (map (fun b : string * option bool =>
                                   (fst b, Some (String.eqb (fst b) t))) tb))).
  { intros t. rewrite !map_map. now apply map_ext. }
  assert (Hfst : forall t,
            map fst (map (fun b : string * option bool =>
                            (fst b, Some (String.eqb (fst b) t))) tb) = map fst tb).
  { intros t. rewrite map_map. now apply map_ext. }
  destruct ev as [v | v | t | ]; cbn.
  - destruct si; cbn; auto.
  - destruct (cs && existsb (String.eqb v) co) eqn:Hc; cbn; auto.
    apply andb_true_iff in Hc. destruct Hc as (-> & Hv).
    apply existsb_eqb_In in Hv.
    repeat split; auto; try (now apply Htw); try (now apply Hcat).
  - destruct (tw && existsb (String.eqb t) (map fst tb)) eqn:Hc; cbn; auto.
    apply andb_true_iff in Hc. destruct Hc as (-> & Ht).
    apply existsb_eqb_In in Ht. cbn.
    repeat split; auto; try discriminate; rewrite ?Hfst; auto;
      try (now apply Htw); try (now apply Hcat).
  - destruct cb; cbn; auto.
    destruct si, cs, tw; cbn; repeat split; auto; try discriminate;
      rewrite ?Hfst; auto; try (now apply Htw); try (now apply Hcat).
Qed.

Section Views.
Context {E : Engine} {HM : ListView.HostMessages}.

Lemma mounted_frame (pg : ListView.Page) (projects : list ProjectRecord) :
  ListView.page (ListView.mounted pg projects) = pg
  /\ ListView.allProjects (ListView.mounted pg projects) = sortProjects projects
  /\ ListView.categoryOptions (ListView.mounted pg projects)
     = (if ListView.categorySelect pg
        then "All" :: categoriesOf (sortProjects projects) else [])
  /\ map fst (ListView.tagButtons (ListView.mounted pg projects))
     = (if ListView.tagsWrap pg then "All" :: tagsOf (sortProjects projects) else []).
Proof.
  destruct pg as [si cs tw cb ce]. unfold ListView.mounted. cbn.
  destruct tw; cbn; repeat split.
  f_equal. rewrite !map_map. cbn. now rewrite map_id.
Qed.

Lemma mounted_controlsConsistent (pg : ListView.Page) (projects : list ProjectRecord) :
  ListView.controlsConsistent (ListView.mounted pg projects).
Proof.
  destruct pg as [si cs tw cb ce]. unfold ListView.mounted, ListView.controlsConsistent.
  cbn. destruct tw, cs; cbn; repeat split; auto; try discriminate.
  all: f_equal; rewrite !map_map; now apply map_ext.
Qed.

Lemma after_invariants (pg : ListView.Page) (projects : list ProjectRecord)
    (evs : list ListView.event) :
  ListView.inSync (ListView.after pg projects evs)
  /\ ListView.controlsConsistent (ListView.after pg projects evs)
  /\ ListView.page (ListView.after pg projects evs) = pg
  /\ ListView.allProjects (ListView.after pg projects evs) = sortProjects projects
  /\ ListView.categoryOptions (ListView.after pg projects evs)
     = (if ListView.categorySelect pg
        then "All" :: categoriesOf (sortProjects projects) else [])
  /\ map fst (ListView.tagButtons (ListView.after pg projects evs))
     = (if ListView.tagsWrap pg then "All" :: tagsOf (sortProjects projects) else []).
Proof.
  unfold ListView.after.
  assert (H0 : ListView.inSync (ListView.mounted pg projects))
    by apply applyFilters_inSync.
  pose proof (mounted_controlsConsistent pg projects) as H1.
  pose proof (mounted_frame pg projects) as H2.
  revert H0 H1 H2. generalize (ListView.mounted pg projects).
  induction evs as [|ev r IH]; intros s H0 H1 H2; cbn [fold_left]; [tauto|].
  apply IH.
  - now apply handle_inSync.
  - now apply handle_controlsConsistent.
  - destruct (handle_frame s ev) as (-> & -> & -> & ->). exact H2.
Qed.

(** X17: The list is always in step with the controls, where every card
    can be built: for loaded records of code units below U+0100, of
    which no slug holds a lone surrogate ([LinkFacts.projectHrefUnits_record]).
    After any events the cards are the records that the current query,
    category and tag select from the sorted list of the load, in its
    order; the list of all projects is still the one sorted at load; and
    the count reads "shown / total". *)
Theorem list_view_in_sync (pg : ListView.Page) (projects : list ProjectRecord)
    (evs : list ListView.event) :
  ListView.allProjects (ListView.after pg projects evs) = sortProjects projects
  /\ ListView.cards (ListView.after pg projects evs)
     = applyFilters (ListView.query (ListView.after pg projects evs))
                    (ListView.selectedCategory (ListView.after pg projects evs))
                    (ListView.activeTag (ListView.after pg projects evs))
                    (sortProjects projects)
  /\ (ListView.countEl pg = true ->
      ListView.countText (ListView.after pg projects evs)
      = Some (ListView.decimal (length (ListView.cards (ListView.after pg projects evs)))
                ++ " / " ++ ListView.decimal (length (sortProjects projects)))).
Proof.
  destruct (after_invariants pg projects evs) as ((Hc & Hn) & _ & Hp & Ha & _).
  split; [exact Ha|]. split.
  - rewrite Hc. unfold ListView.filtered. now rewrite Ha.
  - intros Hce. rewrite Hp in Hn. rewrite (Hn Hce). now rewrite Ha.
Qed.

(** X18: The controls stay consistent.  After any events the options are
    "All" and the categories of the load, the buttons are "All" and its
    tags, exactly the buttons of the active tag are marked active, the
    active tag is one of the buttons (and "All" when the page has no
    buttons), and the selected category is one of the options. *)
Theorem list_view_controls (pg : ListView.Page) (projects : list ProjectRecord)
    (evs : list ListView.event) :
  ListView.categoryOptions (ListView.after pg projects evs)
  = (if ListView.categorySelect pg
     then "All" :: categoriesOf (sortProjects projects) else [])
  /\ ListView.tagButtons (ListView.after pg projects evs)
     = (if ListView.tagsWrap pg
        then map (fun t => (t, Some (String.eqb t (ListView.activeTag
                                                      (ListView.after pg projects evs)))))
                 ("All" :: tagsOf (sortProjects projects))
        else [])
  /\ In (ListView.activeTag (ListView.after pg projects evs))
        ("All" :: tagsOf (sortProjects projects))
  /\ (ListView.tagsWrap pg = false ->
      ListView.activeTag (ListView.after pg projects evs) = "All")
  /\ (ListView.categorySelect pg = true ->
      In (ListView.categoryValue (ListView.after pg projects evs))
         ("All" :: categoriesOf (sortProjects projects))).
Proof.
  destruct (after_invariants pg projects evs)
    as (_ & (Htw & Hno & Hcat) & Hp & _ & Ho & Hb).
  rewrite Hp in Htw, Hno, Hcat.
  split; [exact Ho|]. destruct (ListView.tagsWrap pg) eqn:Hw.
  - destruct (Htw eq_refl) as (Hmark & Hin & _). rewrite Hb in Hmark, Hin.
    repeat split; auto; try discriminate.
    intros Hcs. rewrite Hcs in Ho. rewrite <- Ho. now apply Hcat.
  - assert (Hnil : ListView.tagButtons (ListView.after pg projects evs) = []).
    { now destruct (ListView.tagButtons (ListView.after pg projects evs)). }
    rewrite (Hno eq_refl). repeat split; auto; [now left|].
    intros Hcs. rewrite Hcs in Ho. rewrite <- Ho. now apply Hcat.
Qed.

(** X20: What [renderProjectsList] shows.  Without the target element,
    nothing.  When the load throws, the notice with the error's message,
    which for a response that is not ok is the loader's own.  When the
    load returns records of code units below U+0100, of which no slug
    holds a lone surrogate so that every card can be built
    ([LinkFacts.projectHrefUnits_record]), and the search box is empty or
    absent: a card for every loaded record, sorted. *)
Theorem renderProjectsList_outcomes (pg : ListView.Page) (f : fetched) :
  ListView.renderProjectsList false pg f = None
  /\ (forall res, f = Resolved res -> ok res = false ->
      ListView.renderProjectsList true pg f
      = Some (ListView.Notice "Error: Couldn't load projects.json"))
  /\ (forall e, loadProjects f = Throw e ->
      ListView.renderProjectsList true pg f
      = Some (ListView.Notice ("Error: " ++ ListView.message e)))
  /\ (forall projects, loadProjects f = Ok projects ->
      ListView.searchInput pg = None \/ ListView.searchInput pg = Some "" ->
      exists s, ListView.renderProjectsList true pg f = Some (ListView.Listing s)
                /\ ListView.cards s = sortProjects projects
                /\ ListView.activeTag s = "All").
Proof.
  unfold ListView.renderProjectsList. cbn [negb]. split; [reflexivity|].
  split; [|split].
  - intros res -> Hok. unfold loadProjects. cbn [bind]. now rewrite Hok.
  - intros e ->. reflexivity.
  - intros projects -> Hsi. eexists. split; [reflexivity|].
    destruct pg as [si cs tw cb ce]. cbn in Hsi.
    unfold ListView.mounted. cbn.
    destruct tw; cbn; unfold ListView.filtered; cbn; split; try reflexivity;
      apply applyFilters_defaults;
      destruct Hsi as [-> | ->], cs; cbn; auto.
Qed.

End Views.

(** X19: The clear button shows everything again, where every card can
    be built: for loaded records of code units below U+0100, of which
    no slug holds a lone surrogate ([LinkFacts.projectHrefUnits_record]).
    Whatever the state, the listener of the button empties the query,
    selects "All" twice, and leaves a card for every loaded record, with
    the count "total / total". *)
Theorem clear_shows_everything (s : ListView.State) :
  ListView.clearBtn (ListView.page s) = true ->
  ListView.cards (ListView.handle s ListView.Clear) = ListView.allProjects s
  /\ ListView.activeTag (ListView.handle s ListView.Clear) = "All"
  /\ (ListView.query (ListView.handle s ListView.Clear) = None
      \/ ListView.query (ListView.handle s ListView.Clear) = Some "")
  /\ (ListView.selectedCategory (ListView.handle s ListView.Clear) = None
      \/ ListView.selectedCategory (ListView.handle s ListView.Clear) = Some "All")
  /\ (ListView.countEl (ListView.page s) = true ->
      ListView.countText (ListView.handle s ListView.Clear)
      = Some (ListView.decimal (length (ListView.allProjects s)) ++ " / "
                ++ ListView.decimal (length (ListView.allProjects s)))).
Proof.
  destruct s as [[si cs tw cb ce] all tag sv cv co tb cd ct]. cbn. intros ->.
  assert (Hall : forall q c, (q = None \/ q = Some "") -> (c = None \/ c = Some "All") ->
                   applyFilters q c "All" all = all)
    by (intros q c; apply applyFilters_defaults).
  destruct si, cs, tw; cbn -[applyFilters]; unfold ListView.filtered;
    cbn -[applyFilters]; rewrite Hall by auto; repeat split; auto; now intros ->.
Qed.

End ListViewFacts.

Lemma clear_shows_everything_witness :
  ListView.cards SampleView.narrowed = []
  /\ ListView.cards (ListView.handle SampleView.narrowed ListView.Clear)
     = ListView.allProjects SampleView.narrowed.
Proof.
  split; [reflexivity|].
  exact (proj1 (ListViewFacts.clear_shows_everything SampleView.narrowed eq_refl)).
Defined.

(** ** Tags of any type *)

Section TagCoercion.
Context {E : Engine}.
Import Str StrFacts.

Lemma mapM_In {A B : Type} (f : A -> result B) (xs : list A) (ys : list B) (y : B) :
  mapM f xs = Ok ys -> (In y ys <-> exists x, In x xs /\ f x = Ok y).
Proof.
  intros H. apply mapM_Ok in H.
  induction H as [|x y' xs ys Hxy _ IH]; cbn [In].
  - split; [contradiction | intros (x & [] & _)].
  - rewrite IH. split.
    + intros [<- | (x' & Hin & Hx')]; [exists x; auto | exists x'; auto].
    + intros (x' & [<- | Hin] & Hx'); [left; congruence | right; eauto].
Qed.

(** X8: The tags of a record are the elements of the raw array, whatever
    their type, each converted to a string and trimmed, in the order of
    the array and with its repetitions, without the empty results; so a
    string is a tag exactly when it is the non-empty trimmed conversion of
    an element, and a [null] element becomes the tag "null". *)
Theorem tags_are_coerced (p : json) (r : ProjectRecord) (elems : list json) :
  normalizeProject p = Ok r ->
  getProp p "tags" = Ok (VJson (JArr elems)) ->
  (exists ss, Forall2 (fun e s => toStr e = Ok s) elems ss
              /\ tags r = filter nonEmpty (map trim ss))
  /\ (forall t, In t (tags r) <->
               exists e s, In e elems /\ toStr e = Ok s /\ t = trim s /\ t <> "")
  /\ (In JNull elems -> In "null" (tags r)).
Proof.
  intros Hn Hel.
  assert (Htags : tagsField p = Ok (tags r)).
  { unfold normalizeProject in Hn.
    inv_bind_as Hn t Ht. inv_bind_as Hn sl Hsl. inv_bind_as Hn d Hd.
    inv_bind_as Hn th Hth. inv_bind_as Hn tg Htg. inv_bind_as Hn c Hc.
    inv_bind_as Hn f Hf. inv_bind_as Hn dt Hdt. inv_bind_as Hn l Hl.
    injection Hn as <-. exact Htg. }
  split; [exact (tagsField_exact p (tags r) elems Htags Hel)|].
  unfold tagsField in Htags. rewrite Hel in Htags. cbn [bind] in Htags.
  inv_bind_as Htags ts Hts. injection Htags as Htags.
  assert (Hiff : forall t, In t (tags r) <->
                   exists e s, In e elems /\ toStr e = Ok s /\ t = trim s /\ t <> "").
  { intros t. rewrite <- Htags, filter_In, nonEmpty_true, (mapM_In _ _ _ t Hts).
    split.
    - intros ((e & He & Hs) & Hne). inv_bind_as Hs s Hs'. injection Hs as <-.
      now exists e, s.
    - intros (e & s & He & Hs & -> & Hne). split; [|exact Hne].
      exists e. split; [exact He|]. now rewrite Hs. }
  split; [exact Hiff|].
  intros Hnull. apply Hiff. exists JNull, "null". repeat split; auto. discriminate.
Qed.

End TagCoercion.

Lemma tags_are_coerced_witness :
  exists r,
    normalizeProject (E := Sample.engine)
      (JObj [("title", JStr "A"); ("tags", JArr [JNull; JBool true; JStr " x "])])
    = Ok r
    /\ In "null" (tags r).
Proof.
  eexists. split; [reflexivity|].
  refine (proj2 (proj2 (tags_are_coerced (E := Sample.engine)
                          (JObj [("title", JStr "A");
                                 ("tags", JArr [JNull; JBool true; JStr " x "])])
                          _ [JNull; JBool true; JStr " x "] eq_refl eq_refl)) _).
  now left.
Defined.

